(** * flashlight/client/chained.go: dialer construction and liveness checks

    A shallow embedding of [chained.go] (package [client]) and the
    properties of its specification.  The Go code is a set of methods on
    [*ChainedServerInfo]; they mutate the receiver's [checkTargets], write
    to the package logger and talk to the network.  Here the receiver, the
    log and the requests put on the wire form an explicit state, threaded
    by a small state monad; what the network answers is an oracle. *)

From Stdlib Require Import ZArith Ascii String List Bool Lia.
From stdpp Require Import gmap strings list fin_maps.

Local Open Scope string_scope.
Local Open Scope Z_scope.
Local Open Scope list_scope.

(** ** Go standard library functions used by the file *)

Module strings.

(** [strings.HasSuffix]:
    [len(s) >= len(suffix) && s[len(s)-len(suffix):] == suffix]. *)
Definition HasSuffix (s suffix : string) : bool :=
  (String.length suffix <=? String.length s)%nat
  && String.eqb
       (substring (String.length s - String.length suffix)
                  (String.length suffix) s)
       suffix.

(** [strings.IndexByte]: index of the first [c] in [s]. *)
Fixpoint IndexByte (s : string) (c : ascii) : option nat :=
  match s with
  | EmptyString => None
  | String a r =>
      if Ascii.eqb a c then Some O
      else match IndexByte r c with
           | Some i => Some (S i)
           | None => None
           end
  end.

(** [strings.LastIndexByte]: index of the last [c] in [s]. *)
Fixpoint LastIndexByte (s : string) (c : ascii) : option nat :=
  match s with
  | EmptyString => None
  | String a r =>
      match LastIndexByte r c with
      | Some i => Some (S i)
      | None => if Ascii.eqb a c then Some O else None
      end
  end.

(** The slice [s[i:]]. *)
Definition from (i : nat) (s : string) : string :=
  substring i (String.length s - i) s.

End strings.

(** Errors are carried by their message. *)
Abbreviation error := string.

Module net.

Definition AddrError (why addr : string) : error :=
  "address " +:+ addr +:+ ": " +:+ why.

(** [net.SplitHostPort]: the port starts after the last colon; a host in
    square brackets may itself hold colons. *)
Definition SplitHostPort (hostport : string) : (string * string) + error :=
  match strings.LastIndexByte hostport ":" with
  | None => inr (AddrError "missing port in address" hostport)
  | Some i =>
      let port := strings.from (S i) hostport in
      let finish (host : string) (j k : nat) :=
        if strings.IndexByte (strings.from j hostport) "[" is Some _ then
          inr (AddrError "unexpected '[' in address" hostport)
        else if strings.IndexByte (strings.from k hostport) "]" is Some _ then
          inr (AddrError "unexpected ']' in address" hostport)
        else inl (host, port) in
      if String.prefix "[" hostport then
        match strings.IndexByte hostport "]" with
        | None => inr (AddrError "missing ']' in address" hostport)
        | Some e =>
            if (S e =? String.length hostport)%nat then
              inr (AddrError "missing port in address" hostport)
            else if (S e =? i)%nat then
              finish (substring 1 (e - 1) hostport) 1%nat (S e)
            else if String.get (S e) hostport is Some ":"%char then
              inr (AddrError "too many colons in address" hostport)
            else inr (AddrError "missing port in address" hostport)
        end
      else
        let host := substring 0 i hostport in
        if strings.IndexByte host ":" is Some _ then
          inr (AddrError "too many colons in address" hostport)
        else finish host 0%nat 0%nat
  end.

End net.

Module textproto.

Definition is_lower (c : ascii) : bool :=
  (97 <=? nat_of_ascii c)%nat && (nat_of_ascii c <=? 122)%nat.
Definition is_upper (c : ascii) : bool :=
  (65 <=? nat_of_ascii c)%nat && (nat_of_ascii c <=? 90)%nat.
Definition is_digit (c : ascii) : bool :=
  (48 <=? nat_of_ascii c)%nat && (nat_of_ascii c <=? 57)%nat.

(** The bytes of a header field name (RFC 7230 token characters). *)
Definition validHeaderFieldByte (c : ascii) : bool :=
  is_lower c || is_upper c || is_digit c
  || existsb (Ascii.eqb c)
       (list_ascii_of_string "!#$%&'*+-.^_`|~").

Fixpoint all_valid (s : string) : bool :=
  match s with
  | EmptyString => true
  | String c r => validHeaderFieldByte c && all_valid r
  end.

(** First letter and every letter after a dash in upper case, the others
    in lower case. *)
Fixpoint canon (upper : bool) (s : string) : string :=
  match s with
  | EmptyString => EmptyString
  | String c r =>
      let c' :=
        if upper && is_lower c then ascii_of_nat (nat_of_ascii c - 32)
        else if negb upper && is_upper c then ascii_of_nat (nat_of_ascii c + 32)
        else c in
      String c' (canon (Ascii.eqb c' "-") r)
  end.

(** [textproto.CanonicalMIMEHeaderKey]: a key holding a byte that is not
    a field-name byte is returned as it is. *)
Definition CanonicalMIMEHeaderKey (s : string) : string :=
  if all_valid s then canon true s else s.

End textproto.

Module http.

(** [http.Header]: canonical key to the values sent under it, in order. *)
Abbreviation Header := (gmap string (list string)).

(** The header map of a request is allocated ([http.NewRequest] and the
    server both do so), never nil. *)
Record Request := mkRequest {
  Method : string;
  URL : string;
  Hdr : Header
}.

(** [Header.Add]: appends to the values of the key. *)
Definition Header_Add (h : Header) (key value : string) : Header :=
  let k := textproto.CanonicalMIMEHeaderKey key in
  <[k := (default [] (h !! k) ++ [value])%list]> h.

(** [Header.Set]: replaces the values of the key by the single value. *)
Definition Header_Set (h : Header) (key value : string) : Header :=
  <[textproto.CanonicalMIMEHeaderKey key := [value]]> h.

(** [Header.Values]: all values of the key. *)
Definition Header_Values (h : Header) (key : string) : list string :=
  default [] (h !! textproto.CanonicalMIMEHeaderKey key).

(** [Header.Get]: the first value of the key, or the empty string. *)
Definition Header_Get (h : Header) (key : string) : string :=
  match Header_Values h key with
  | [] => ""
  | v :: _ => v
  end.

Definition with_header (f : Header -> Header) (req : Request) : Request :=
  {| Method := Method req; URL := URL req; Hdr := f (Hdr req) |}.

End http.

Module time.
(** [time.Duration]: a count of nanoseconds. *)
Definition Duration := Z.
Definition Second : Duration := 1000000000.
Definition Hour : Duration := 3600 * Second.
End time.

(** ** The data of [chained.go] *)

(** A [chan string]: its capacity and the strings buffered, oldest first. *)
Record chan := mkChan {
  cap : nat;
  buf : list string
}.

(** [type siteList struct { ch chan string }]; [None] is the nil channel of
    a list that was never initialised. *)
Record siteList := mkSiteList {
  ch : option chan
}.

Record ChainedServerInfo := mkChainedServerInfo {
  Addr : string;
  Cert : string;
  AuthToken : string;
  Trusted : bool;
  PluggableTransport : string;
  PluggableTransportSettings : gmap string string;
  checkTargets : siteList
}.

(** The two package-level variables. *)
Record Globals := mkGlobals {
  ForceChainedProxyAddr : string;
  ForceAuthToken : string
}.

(** Close connections idle for a period to avoid dangling connections. *)
Definition idleTimeout : time.Duration := 1 * time.Hour.

(** Lantern internal sites won't be used as check target. *)
Definition internalSiteSuffixes : list string :=
  ["getlantern.org"; "getiantem.org"; "lantern.io"].

(** ** [siteList]: the three methods

    A [select] with a [default] case never blocks: the send is taken when
    the buffer has room, the receive when the buffer holds a string, and
    [default] otherwise; on a nil channel neither is ever ready. *)

Definition initIfNecessary (size : nat) (q : siteList) : siteList :=
  match ch q with
  | None => mkSiteList (Some (mkChan size []))
  | Some _ => q
  end.

Definition add (addr : string) (q : siteList) : siteList :=
  match ch q with
  | Some c =>
      if (length (buf c) <? cap c)%nat
      then mkSiteList (Some (mkChan (cap c) (buf c ++ [addr])))
      else q
  | None => q
  end.

Definition get (q : siteList) : string * siteList :=
  match ch q with
  | Some (mkChan n (addr :: rest)) => (addr, mkSiteList (Some (mkChan n rest)))
  | _ => ("", q)
  end.

(** The strings resident in the list. *)
Definition resident (q : siteList) : list string :=
  match ch q with
  | Some c => buf c
  | None => []
  end.

(** ** State, log and connections *)

Inductive level := Trace | Debug | Error.

(** An argument of a log call. *)
Inductive value := VStr (s : string) | VInt (z : Z).

(** A log call: its level, its format string and the arguments. *)
Record entry := mkEntry {
  lvl : level;
  fmt : string;
  args : list value
}.

(** What a method of [*ChainedServerInfo] can read and change: the
    receiver, the log, and the requests handed to [RoundTrip]. *)
Record world := mkWorld {
  server : ChainedServerInfo;
  logged : list entry;
  sent : list http.Request
}.

Definition M (A : Type) : Type := world -> A * world.

#[export] Instance M_ret : MRet M := fun A (a : A) w => (a, w).
#[export] Instance M_bind : MBind M :=
  fun A B (f : A -> M B) (m : M A) w => let (a, w') := m w in f a w'.

Definition the_server : M ChainedServerInfo := fun w => (server w, w).

Definition set_checkTargets (q : siteList) : M unit :=
  fun w =>
    let s := server w in
    (tt, mkWorld (mkChainedServerInfo (Addr s) (Cert s) (AuthToken s) (Trusted s)
                    (PluggableTransport s) (PluggableTransportSettings s) q)
                 (logged w) (sent w)).

Module log.
Definition write (l : level) (f : string) (a : list value) : M unit :=
  fun w => (tt, mkWorld (server w) (logged w ++ [mkEntry l f a]) (sent w)).
Definition Tracef := write Trace.
Definition Debugf := write Debug.
Definition Errorf := write Error.
End log.

(** What the callback given to [idletiming.Conn] does when it fires: it
    logs the address and closes the connection. *)
Inductive onIdle := LogAndClose (addr : string).

(** A [net.Conn]: one dialed in plain TCP or under TLS, one reached
    through another, or one wrapped by the idle timer. *)
Inductive Conn :=
| TCP (addr : string)
| TLS (addr cert : string)
| Tunnel (upstream : Conn) (network addr : string)
| Idletiming (conn : Conn) (idle : time.Duration) (cb : onIdle).

Module idletiming.
(** Modelled from the spec: [idletiming.Conn(conn, idleTimeout, onIdle)],
    of the idle-timeout wrapper, which is not in [chained.go] (section 6:
    a connection, a duration and a callback give a connection that is
    closed, with the callback run, after that long without activity). *)
Definition Conn (conn : Conn) (idle : time.Duration) (cb : onIdle) : Conn :=
  Idletiming conn idle cb.
End idletiming.

(** A call that takes time: it returns a value after a while or never. *)
Inductive timed (A : Type) :=
| Returns (after : time.Duration) (a : A)
| Hangs.
Arguments Returns {A} after a.
Arguments Hangs {A}.

Module withtimeout.
(** Modelled from the spec: [withtimeout.Do(timeout, fn)], the
    bounded-time executor, which is not in [chained.go] (sections 4.4, 5
    and 6).  The caller waits for the result of [fn] or for the bound.
    When the bound is exceeded the result is [nil] and [timedOut] is true;
    [fn] is not cancelled, only its result is ignored, so what it does to
    the state still happens.  A result arriving exactly at the bound races
    with the timer; the time-out branch is taken for it here. *)
Definition Do {A} (timeout : time.Duration) (fn : M (timed A))
  : M (option A * bool) :=
  r ← fn;
  match r with
  | Returns after a =>
      if after <? timeout then mret (Some a, false) else mret (None, true)
  | Hangs => mret (None, true)
  end.
End withtimeout.

Record Response := mkResponse {
  StatusCode : Z;
  BodyCloseErr : option error
}.

(** [func(network, addr string) (net.Conn, error)]. *)
Definition dialer := string -> string -> Conn + error.

(** A dial factory of the registry, called as [dialFactory(s, deviceID)];
    it is a function of package [client] and, like any of them, can read
    the package variables.  [dialFN], the type of the dial function it
    returns, is declared with the registry; [chained.go] only hands the
    function on. *)
Definition dialFactory (dialFN : Type) : Type :=
  Globals -> ChainedServerInfo -> string -> dialFN + error.

Module chained.
(** Modelled from the spec: [chained.Config], of the chained-connection
    library, which is not in [chained.go]; the fields are the ones
    [Dialer] sets. *)
Record Config (dialFN : Type) := mkConfig {
  DialServer : dialFN;
  Label : string;
  OnRequest : http.Request -> M http.Request
}.
Arguments mkConfig {dialFN}.
Arguments DialServer {dialFN}.
Arguments Label {dialFN}.
Arguments OnRequest {dialFN}.
End chained.

Module balancer.
(** Modelled from the spec: [balancer.Dialer], the record exposed to the
    balancer, which is not in [chained.go]; the fields are the ones
    [Dialer] sets (section 3, BuiltDialer). *)
Record Dialer := mkDialer {
  Label : string;
  Trusted : bool;
  DialFN : string -> string -> M (Conn + error);
  Check : M bool;
  OnRequest : http.Request -> M http.Request
}.
End balancer.

(** ** The methods of [*ChainedServerInfo] *)

Section Core.

(** The package variables, as the process set them before any dialer was
    built. *)
Variable g : Globals.

(** [pluggableTransports], the registry of dial factories by transport
    name, is declared elsewhere in the package, with the type [dialFN]
    of the dial functions; a name without an entry looks up to [nil]. *)
Variable dialFN : Type.
Variable pluggableTransports : gmap string (dialFactory dialFN).

(** [chained.NewDialer], of the chained-connection library. *)
Variable NewDialer : chained.Config dialFN -> dialer.

(** What [url.Parse] says of a URL: [Some err] when it does not parse. *)
Variable url_Parse : string -> option error.

(** What a round trip of [http.Transport] over a dial function gives for
    a request: a response or a transport error after some time, or
    nothing ever. *)
Variable RoundTrip : dialer -> http.Request -> timed (Response + error).

(** [http.NewRequest(method, url, nil)]: an empty method means GET, the
    method is a token, the URL parses, and the header starts empty. *)
Definition NewRequest (method url : string) : http.Request + error :=
  let method := if String.eqb method "" then "GET" else method in
  if negb (textproto.all_valid method) then
    inr ("net/http: invalid method " +:+ method)
  else match url_Parse url with
       | Some err => inr err
       | None => inl (http.mkRequest method url ∅)
       end.

(** [rt.RoundTrip(req)]: the request is handed to the transport. *)
Definition rt_RoundTrip (dial : dialer) (req : http.Request)
  : M (timed (Response + error)) :=
  fun w => (RoundTrip dial req,
            mkWorld (server w) (logged w) (sent w ++ [req])).

Definition attachHeaders (req : http.Request) (deviceID : string)
  : M http.Request :=
  s ← the_server;
  let authToken := AuthToken s in
  let authToken :=
    if negb (String.eqb (ForceAuthToken g) "") then ForceAuthToken g
    else authToken in
  let req :=
    if negb (String.eqb authToken "") then
      http.with_header
        (fun h => http.Header_Add h "X-LANTERN-AUTH-TOKEN" authToken) req
    else req in
  mret (http.with_header
          (fun h => http.Header_Set h "X-LANTERN-DEVICE-ID" deviceID) req).

(** [s.checkTargets.initIfNecessary], [.add] and [.get] on the receiver. *)
Definition checkTargets_initIfNecessary (size : nat) : M unit :=
  s ← the_server; set_checkTargets (initIfNecessary size (checkTargets s)).

Definition checkTargets_add (addr : string) : M unit :=
  s ← the_server; set_checkTargets (add addr (checkTargets s)).

Definition checkTargets_get : M string :=
  s ← the_server;
  let (addr, q) := get (checkTargets s) in
  set_checkTargets q;; mret addr.

(** The loop over [internalSiteSuffixes]: true when it leaves through
    its [return]. *)
Fixpoint hasInternalSuffix (host : string) (suffixes : list string) : bool :=
  match suffixes with
  | [] => false
  | suffix :: rest =>
      if strings.HasSuffix host suffix then true
      else hasInternalSuffix host rest
  end.

Definition addCheckTarget (addr : string) : M unit :=
  match net.SplitHostPort addr with
  | inr e => log.Errorf "failed to split port from %s" [VStr addr]
  | inl (host, port) =>
      if negb (String.eqb port "80") then
        log.Tracef "Skip setting non-HTTP site %s as check target" [VStr addr]
      else if hasInternalSuffix host internalSiteSuffixes then
        log.Tracef "Skip setting internal site %s as check target" [VStr addr]
      else checkTargets_add addr
  end.

(** The function given to [withtimeout.Do] in [check]. *)
Definition probe (dial : dialer) (req : http.Request)
           (url checkTarget : string) : M (timed bool) :=
  s ← the_server;
  r ← rt_RoundTrip dial req;
  match r with
  | Hangs => mret Hangs
  | Returns after (inr err) =>
      log.Debugf "Error testing dialer %s to %s: %s"
        [VStr (Addr s); VStr url; VStr err];;
      mret (Returns after false)
  | Returns after (inl resp) =>
      match BodyCloseErr resp with
      | Some err => log.Debugf "Unable to close response body: %v" [VStr err]
      | None => mret tt
      end;;
      let msg := [VStr url; VStr (Addr s); VInt (StatusCode resp)] in
      let reachable := StatusCode resp <? 500 in
      if negb reachable then
        log.write Debug "HEAD %s through chained server at %s, status code %d" msg;;
        mret (Returns after false)
      else
        log.write Trace "HEAD %s through chained server at %s, status code %d" msg;;
        (if negb (String.eqb checkTarget "") then checkTargets_add checkTarget
         else mret tt);;
        mret (Returns after true)
  end.

Definition check (dial : dialer) (deviceID : string) : M bool :=
  s ← the_server;
  checkTarget ← checkTargets_get;
  let url :=
    if String.eqb checkTarget "" then "http://ping-chained-server"
    else "http://" +:+ checkTarget +:+ "/index.html" in
  match NewRequest "HEAD" url with
  | inr err =>
      log.Errorf "Could not create HTTP request: %v" [VStr err];;
      mret false
  | inl req =>
      let req :=
        if String.eqb checkTarget "" then
          http.with_header
            (fun h => http.Header_Set h "X-Lantern-Ping" "small") req
        else req in
      req ← attachHeaders req deviceID;
      '(ok, timedOut) ← withtimeout.Do (60 * time.Second)
                           (probe dial req url checkTarget);
      (if timedOut : bool then
         log.Errorf "Timed out checking dialer at: %v" [VStr (Addr s)]
       else mret tt);;
      mret (negb timedOut && default false ok)
  end.

(** The [DialFN] closure of the dialer, over the chained dial path [d]. *)
Definition DialFN (d : dialer) (network addr : string) : M (Conn + error) :=
  match d network addr with
  | inr err => mret (inr err)
  | inl conn =>
      addCheckTarget addr;;
      mret (inl (idletiming.Conn conn idleTimeout (LogAndClose addr)))
  end.

(** [Dialer] creates a [*balancer.Dialer] backed by a chained server. *)
Definition Dialer (deviceID : string) : M (balancer.Dialer + error) :=
  s ← the_server;
  (if negb (String.eqb (PluggableTransport s) "") then
     log.Debugf "Using pluggable transport %v for server at %v"
       [VStr (PluggableTransport s); VStr (Addr s)]
   else mret tt);;
  match pluggableTransports !! PluggableTransport s with
  | None =>
      mret (inr ("No dial factory defined for transport: "
                 +:+ PluggableTransport s))
  | Some factory =>
      match factory g s deviceID with
      | inr err => mret (inr ("Unable to construct dialFN: " +:+ err))
      | inl dial =>
          let trusted := if Trusted s then "(trusted) " else "" in
          let label :=
            trusted +:+ "chained proxy at " +:+ Addr s
            +:+ " [" +:+ PluggableTransport s +:+ "]" in
          (* keep at most 10 sites to check, ignore others. *)
          checkTargets_initIfNecessary 10;;
          let ccfg :=
            chained.mkConfig dial label
              (fun req => attachHeaders req deviceID) in
          let d := NewDialer ccfg in
          mret (inl (balancer.mkDialer label (Trusted s)
                       (DialFN d)
                       (check d deviceID)
                       (chained.OnRequest ccfg)))
      end
  end.

End Core.

(** ** The check-target list *)

(** A sequence of calls on one list, one after the other. *)
Inductive op := Add (addr : string) | Get.

(** Runs the calls in order; returns what the [get]s returned and the list
    left at the end. *)
Fixpoint run (ops : list op) (q : siteList) : list string * siteList :=
  match ops with
  | [] => ([], q)
  | Add addr :: rest => run rest (add addr q)
  | Get :: rest =>
      let (x, q') := get q in
      let (xs, q'') := run rest q' in
      (x :: xs, q'')
  end.

(** The list a server starts with, and the one [Dialer] leaves. *)
Definition nilList : siteList := mkSiteList None.
Definition freshList : siteList := initIfNecessary 10 nilList.

(** The capacity is respected and never changes. *)
Definition within (n : nat) (q : siteList) : Prop :=
  exists l, ch q = Some (mkChan n l) /\ (length l <= n)%nat.

(** ** Definitions for the statements and the runs *)

(** The check targets of the server in a state. *)
Definition targets (w : world) : siteList := checkTargets (server w).

(** Runs the monadic plumbing of a method applied to a state. *)
Ltac run_M :=
  unfold mbind, M_bind, mret, M_ret, the_server; cbn beta iota zeta.

Ltac run_M_in H :=
  unfold mbind, M_bind, mret, M_ret, the_server, set_checkTargets,
    log.Errorf, log.Debugf, log.Tracef, log.write in H;
  cbn beta iota zeta in H.

(** The token in force: the forced one when it is set, the server's own
    otherwise. *)
Definition effectiveToken (g : Globals) (s : ChainedServerInfo) : string :=
  if String.eqb (ForceAuthToken g) "" then AuthToken s else ForceAuthToken g.

Definition authKey : string := "X-Lantern-Auth-Token".
Definition deviceKey : string := "X-Lantern-Device-Id".
Definition pingKey : string := "X-Lantern-Ping".

(** What [attachHeaders] does to the header map. *)
Definition attached (tok deviceID : string) (h : http.Header) : http.Header :=
  <[deviceKey := [deviceID]]>
    (if String.eqb tok "" then h
     else <[authKey := default [] (h !! authKey) ++ [tok]]> h).

(** A server with the given token and nothing else set. *)
Definition serverWithToken (tok : string) : ChainedServerInfo :=
  mkChainedServerInfo "10.0.0.1:443" "" tok false "" ∅ nilList.

(** A request that already carries an auth token. *)
Definition staleRequest : http.Request :=
  http.mkRequest "GET" "http://example.com/" {[authKey := ["stale"]]}.

(** The URL probed for a popped target; the empty string stands for "no
    target". *)
Definition probeURL (checkTarget : string) : string :=
  if String.eqb checkTarget "" then "http://ping-chained-server"
  else "http://" +:+ checkTarget +:+ "/index.html".

(** The request [check] hands to the transport. *)
Definition checkRequest (g : Globals) (s : ChainedServerInfo)
           (deviceID checkTarget : string) : http.Request :=
  http.mkRequest "HEAD" (probeURL checkTarget)
    (attached (effectiveToken g s) deviceID
       (if String.eqb checkTarget "" then <[pingKey := ["small"]]> ∅ else ∅)).

Module Fixture.

(** Modelled from the spec: the type of the dial function a factory
    returns, which is declared with the registry, outside [chained.go];
    section 6 gives it as rawDial: (network, address) to (Connection,
    error). *)
Definition rawDial : Type := string -> string -> Conn + error.

(** Modelled from the spec: the dial factory of the default transport
    (empty name), which is not in [chained.go].  It dials the upstream
    proxy: at the forced chained-proxy address when that is set (the
    comment on [ForceChainedProxyAddr]: if specified, all proxying will go
    through this address; section 6: read by this core, empty means
    unset), at the configured address otherwise; a certificate selects the
    secured dial path, its absence the plain one (section 3).  The network
    is one on which every address answers. *)
Definition defaultDialFactory : dialFactory rawDial :=
  fun g s deviceID =>
    let addr :=
      if String.eqb (ForceChainedProxyAddr g) "" then Addr s
      else ForceChainedProxyAddr g in
    inl (fun network _ =>
           if String.eqb (Cert s) "" then inl (TCP addr)
           else inl (TLS addr (Cert s))).

(** Modelled from the spec: the registry [pluggableTransports], which is
    not in [chained.go], with the default transport under the empty name
    (section 3: the empty string denotes the default transport). *)
Definition pluggableTransports : gmap string (dialFactory rawDial) :=
  {[ "" := defaultDialFactory ]}.

(** Modelled from the spec: [chained.NewDialer], of the chained-connection
    layer, which is not in [chained.go] (section 6): its dial function
    performs the underlying dial of the configuration and reaches the
    address through the connection obtained. *)
Definition NewDialer (cfg : chained.Config rawDial) : dialer :=
  fun network addr =>
    match chained.DialServer cfg network addr with
    | inl upstream => inl (Tunnel upstream network addr)
    | inr err => inr err
    end.

End Fixture.

(** What the balancer can see of a server: the error of the construction
    or, for the dialer built, the result of a dial call and of a check
    call, each with the state it leaves. *)
Definition observed (g : Globals) (dialFN : Type)
           (registry : gmap string (dialFactory dialFN))
           (NewDialer : chained.Config dialFN -> dialer)
           (url_Parse : string -> option error)
           (RoundTrip : dialer -> http.Request -> timed (Response + error))
           (deviceID network addr : string) (w : world)
  : error + ((Conn + error) * world) * (bool * world) :=
  match Dialer g dialFN registry NewDialer url_Parse RoundTrip deviceID w with
  | (inr err, _) => inl err
  | (inl d, w0) =>
      inr (balancer.DialFN d network addr w0, balancer.Check d w0)
  end.

(** A dial function that reaches every address. *)
Definition openNet : dialer := fun _ addr => inl (TCP addr).

(** Every URL parses; every round trip is answered alike. *)
Definition parse_all : string -> option error := fun _ => None.
Definition answers (r : timed (Response + error))
  : dialer -> http.Request -> timed (Response + error) := fun _ _ => r.
Definition status (code : Z) : timed (Response + error) :=
  Returns time.Second (inl (mkResponse code None)).

Definition noGlobals : Globals := mkGlobals "" "".

(** The dial function given to [check] in the runs below. *)
Definition someDial : dialer := openNet.

(** A server with one check target, and one with none. *)
Definition oneTarget : world :=
  mkWorld (mkChainedServerInfo "10.0.0.1:443" "" "T" false "" ∅
             (add "example.com:80" freshList)) [] [].
Definition noTarget : world :=
  mkWorld (mkChainedServerInfo "10.0.0.1:443" "" "T" false "" ∅ freshList)
          [] [].

Definition run_check (r : timed (Response + error)) (w : world) : bool * world :=
  check noGlobals parse_all (answers r) someDial "device" w.

(** ** Definitions for the further properties *)

(** The addresses a sequence of calls adds, in order. *)
Fixpoint added (ops : list op) : list string :=
  match ops with
  | [] => []
  | Add addr :: rest => addr :: added rest
  | Get :: rest => added rest
  end.

(** The number of gets in a sequence of calls. *)
Fixpoint gets (ops : list op) : nat :=
  match ops with
  | [] => O
  | Add _ :: rest => gets rest
  | Get :: rest => S (gets rest)
  end.

(** The server with other check targets: what an assignment to
    [s.checkTargets] leaves. *)
Definition withTargets (s : ChainedServerInfo) (q : siteList) : ChainedServerInfo :=
  mkChainedServerInfo (Addr s) (Cert s) (AuthToken s) (Trusted s)
    (PluggableTransport s) (PluggableTransportSettings s) q.

(** The addresses [addCheckTarget] lets through to [add]: they split into
    a host and the port "80", and the host has no internal suffix. *)
Definition okTarget (addr : string) : bool :=
  match net.SplitHostPort addr with
  | inl (host, port) =>
      String.eqb port "80" && negb (hasInternalSuffix host internalSiteSuffixes)
  | inr _ => false
  end.

(** The log entry [addCheckTarget] writes for an address it skips. *)
Definition skipEntry (addr : string) : entry :=
  match net.SplitHostPort addr with
  | inr _ => mkEntry Error "failed to split port from %s" [VStr addr]
  | inl (host, port) =>
      if String.eqb port "80"
      then mkEntry Trace "Skip setting internal site %s as check target"
             [VStr addr]
      else mkEntry Trace "Skip setting non-HTTP site %s as check target"
             [VStr addr]
  end.

(** The log entry [check] writes when the time is out. *)
Definition timedOutEntry (s : ChainedServerInfo) : entry :=
  mkEntry Error "Timed out checking dialer at: %v" [VStr (Addr s)].

(** The log entries of a run of [check] that sent a probe to [url] and
    got [r] for it. *)
Definition probeLog (s : ChainedServerInfo) (url : string)
           (r : timed (Response + error)) : list entry :=
  match r with
  | Hangs => [timedOutEntry s]
  | Returns after x =>
      match x with
      | inr err =>
          [mkEntry Debug "Error testing dialer %s to %s: %s"
             [VStr (Addr s); VStr url; VStr err]]
      | inl resp =>
          match BodyCloseErr resp with
          | Some err =>
              [mkEntry Debug "Unable to close response body: %v" [VStr err]]
          | None => []
          end
          ++ [mkEntry (if StatusCode resp <? 500 then Trace else Debug)
                "HEAD %s through chained server at %s, status code %d"
                [VStr url; VStr (Addr s); VInt (StatusCode resp)]]
      end
      ++ (if after <? 60 * time.Second then [] else [timedOutEntry s])
  end.

(** A call the balancer makes on a dialer. *)
Inductive call := Dial (network addr : string) | CheckCall.

(** The calls made in order on a dialer; returns the state left. *)
Fixpoint calls (d : balancer.Dialer) (cs : list call) (w : world) : world :=
  match cs with
  | [] => w
  | Dial network addr :: rest =>
      calls d rest (balancer.DialFN d network addr w).2
  | CheckCall :: rest => calls d rest (balancer.Check d w).2
  end.

(** The number of checks among calls. *)
Fixpoint checkCalls (cs : list call) : nat :=
  match cs with
  | [] => O
  | Dial _ _ :: rest => checkCalls rest
  | CheckCall :: rest => S (checkCalls rest)
  end.

(** [n] checks in a row; returns their results and the state left. *)
Fixpoint checks (g : Globals) (url_Parse : string -> option error)
         (RoundTrip : dialer -> http.Request -> timed (Response + error))
         (dial : dialer) (deviceID : string) (n : nat) (w : world)
  : list bool * world :=
  match n with
  | O => ([], w)
  | S m =>
      let (b, w1) := check g url_Parse RoundTrip dial deviceID w in
      let (bs, w2) := checks g url_Parse RoundTrip dial deviceID m w1 in
      (b :: bs, w2)
  end.

(** A dialer as [Dialer] builds it over the chained dial path [d]: its
    dial function and its check are the closures over [d]. *)
Definition builtOver (g : Globals) (url_Parse : string -> option error)
           (RoundTrip : dialer -> http.Request -> timed (Response + error))
           (deviceID : string) (d : dialer) (bd : balancer.Dialer) : Prop :=
  balancer.DialFN bd = DialFN d
  /\ balancer.Check bd = check g url_Parse RoundTrip d deviceID
  /\ balancer.OnRequest bd = (fun req => attachHeaders g req deviceID).

(** All resident targets are addresses [addCheckTarget] lets through. *)
Definition targetsOk (w : world) : Prop :=
  Forall (fun addr => okTarget addr = true) (resident (targets w)).

(** * Properties *)

Lemma within_add n addr q : within n q -> within n (add addr q).
Proof.
  intros (l & Hq & Hl). unfold add. rewrite Hq. cbn [buf cap].
  destruct (Nat.ltb_spec (length l) n) as [Hlt | Hge].
  - exists (l ++ [addr]). split; [reflexivity |].
    rewrite length_app. cbn. lia.
  - exists l. auto.
Qed.

Lemma within_get n q : within n q -> within n (get q).2.
Proof.
  intros (l & Hq & Hl). unfold get. rewrite Hq.
  destruct l as [| a l]; cbn.
  - exists []. auto.
  - exists l. split; [reflexivity |]. cbn in Hl. lia.
Qed.

Lemma within_run n ops : forall q, within n q -> within n (run ops q).2.
Proof.
  induction ops as [| [addr |] ops IH]; intros q Hq; cbn.
  - exact Hq.
  - apply IH, within_add, Hq.
  - pose proof (within_get n q Hq) as Hg.
    destruct (get q) as [x q']. cbn in Hg.
    specialize (IH q' Hg). destruct (run ops q') as [xs q'']. exact IH.
Qed.

Lemma within_fresh : within 10 freshList.
Proof. exists []. split; [reflexivity | cbn; lia]. Qed.

Lemma within_resident n q : within n q -> (length (resident q) <= n)%nat.
Proof. intros (l & Hq & Hl). unfold resident. rewrite Hq. exact Hl. Qed.

Lemma add_full n q addr :
  within n q -> length (resident q) = n -> add addr q = q.
Proof.
  intros (l & Hq & Hl). unfold resident, add. rewrite Hq. cbn [buf cap].
  intros ->. rewrite Nat.ltb_irrefl. reflexivity.
Qed.

Lemma add_room n q addr :
  within n q -> (length (resident q) < n)%nat ->
  resident (add addr q) = resident q ++ [addr].
Proof.
  intros (l & Hq & Hl). unfold resident, add. rewrite Hq. cbn [buf cap].
  intros Hlt. apply Nat.ltb_lt in Hlt. rewrite Hlt. reflexivity.
Qed.

Lemma get_empty q : resident q = [] -> get q = ("", q).
Proof.
  unfold resident, get. destruct q as [[[n l] |]]; cbn; [| reflexivity].
  intros ->. reflexivity.
Qed.

Lemma get_empty_repeat q n :
  resident q = [] -> run (repeat Get n) q = (repeat "" n, q).
Proof.
  intros Hq. induction n as [| n IH]; cbn; [reflexivity |].
  rewrite (get_empty q Hq), IH. reflexivity.
Qed.

(** C6. Whatever adds and gets were made on a list initialised with
    capacity 10, it holds at most 10 strings; an add made while 10 are
    resident changes nothing (the new string is dropped, the resident ones
    stay, in order); and on the empty list every get of a row of gets
    returns the empty string and leaves the list empty. *)
Theorem checkTargets_bounded (ops : list op) :
  let q := (run ops freshList).2 in
  (length (resident q) <= 10)%nat
  /\ (forall addr, length (resident q) = 10%nat -> add addr q = q)
  /\ (forall n, resident q = [] -> run (repeat Get n) q = (repeat "" n, q)).
Proof.
  intros q.
  assert (Hq : within 10 q) by apply within_run, within_fresh.
  split; [| split].
  - apply within_resident, Hq.
  - intros addr Hfull. eapply add_full; eauto.
  - intros n Hempty. apply get_empty_repeat, Hempty.
Qed.

Example run_drops_newest :
  run (map Add ["a"; "b"; "c"; "d"; "e"; "f"; "g"; "h"; "i"; "j"; "k"]
       ++ [Get; Get]) freshList
  = (["a"; "b"],
     mkSiteList (Some (mkChan 10 ["c"; "d"; "e"; "f"; "g"; "h"; "i"; "j"]))).
Proof. reflexivity. Qed.

Example nil_list_ignores_add : run [Add "a"; Get] nilList = ([""], nilList).
Proof. reflexivity. Qed.

(** ** [strings.HasSuffix] is "ends with" *)

Lemma substring_all (s : string) : substring 0 (String.length s) s = s.
Proof. induction s as [| c s IH]; cbn; [reflexivity | now rewrite IH]. Qed.

Lemma substring_append_r (p s : string) :
  substring (String.length p) (String.length s) (p +:+ s) = s.
Proof.
  induction p as [| c p IH]; cbn; [apply substring_all | exact IH].
Qed.

Lemma substring_split (s : string) : forall n,
  (n <= String.length s)%nat ->
  s = substring 0 n s +:+ substring n (String.length s - n) s.
Proof.
  induction s as [| c s IH]; intros [| n] Hn; cbn in *; try lia.
  - reflexivity.
  - now rewrite substring_all.
  - change (String c s
            = String c (substring 0 n s
                        +:+ substring n (String.length s - n) s)).
    f_equal. apply IH. lia.
Qed.

Lemma length_append (p s : string) :
  String.length (p +:+ s) = (String.length p + String.length s)%nat.
Proof.
  induction p as [| c p IH]; [reflexivity |].
  change (S (String.length (p +:+ s))
          = S (String.length p + String.length s)).
  now rewrite IH.
Qed.

Lemma HasSuffix_spec (s suffix : string) :
  strings.HasSuffix s suffix = true <-> exists p, s = p +:+ suffix.
Proof.
  unfold strings.HasSuffix. rewrite andb_true_iff, Nat.leb_le, String.eqb_eq.
  split.
  - intros [Hle Hsub].
    exists (substring 0 (String.length s - String.length suffix) s).
    rewrite (substring_split s (String.length s - String.length suffix))
      at 1 by lia.
    f_equal.
    replace (String.length s - (String.length s - String.length suffix))%nat
      with (String.length suffix) by lia.
    exact Hsub.
  - intros [p ->]. rewrite length_append. split; [lia |].
    replace (String.length p + String.length suffix - String.length suffix)%nat
      with (String.length p) by lia.
    apply substring_append_r.
Qed.

(** ** [addCheckTarget] *)

Lemma hasInternalSuffix_true host suffixes :
  hasInternalSuffix host suffixes = true
  <-> exists suffix, In suffix suffixes /\ strings.HasSuffix host suffix = true.
Proof.
  induction suffixes as [| x l IH]; cbn.
  - split; [discriminate | intros (? & [] & _)].
  - destruct (strings.HasSuffix host x) eqn:Hx.
    + split; [intros _; exists x; auto | reflexivity].
    + rewrite IH. split.
      * intros (y & Hy & Hs). exists y; auto.
      * intros (y & [<- | Hy] & Hs); [congruence | exists y; auto].
Qed.

(** C5. [addCheckTarget] on any address: when the address does not split
    into host and port, an error is logged and the targets stay as they
    were (the method returns nothing, so no error reaches the caller);
    when the port is not "80" the targets stay; when the host ends with
    one of getlantern.org, getiantem.org, lantern.io the targets stay;
    otherwise the address goes through [add].  "1.2.3.4:80" goes through
    [add], and is resident afterwards when the list had room;
    "1.2.3.4:443" and "sub.getlantern.org:80" leave the targets as they
    were. *)
Theorem addCheckTarget_policy (addr : string) (w : world) :
  let w' := (addCheckTarget addr w).2 in
  (forall e, net.SplitHostPort addr = inr e ->
     targets w' = targets w
     /\ logged w'
        = logged w ++ [mkEntry Error "failed to split port from %s" [VStr addr]])
  /\ (forall host port, net.SplitHostPort addr = inl (host, port) ->
        port <> "80" -> targets w' = targets w)
  /\ (forall host port suffix prefix,
        net.SplitHostPort addr = inl (host, port) ->
        In suffix ["getlantern.org"; "getiantem.org"; "lantern.io"] ->
        host = prefix +:+ suffix -> targets w' = targets w)
  /\ (forall host, net.SplitHostPort addr = inl (host, "80") ->
        (forall suffix prefix,
           In suffix ["getlantern.org"; "getiantem.org"; "lantern.io"] ->
           host <> prefix +:+ suffix) ->
        targets w' = add addr (targets w))
  /\ targets (addCheckTarget "1.2.3.4:80" w).2 = add "1.2.3.4:80" (targets w)
  /\ (forall n, within n (targets w) -> (length (resident (targets w)) < n)%nat ->
        resident (targets (addCheckTarget "1.2.3.4:80" w).2)
        = resident (targets w) ++ ["1.2.3.4:80"])
  /\ targets (addCheckTarget "1.2.3.4:443" w).2 = targets w
  /\ targets (addCheckTarget "sub.getlantern.org:80" w).2 = targets w.
Proof.
  intros w'. subst w'. unfold addCheckTarget.
  split; [| split; [| split; [| split; [| split; [| split; [| split]]]]]];
    try reflexivity.
  - intros e Hsplit. rewrite Hsplit. split; reflexivity.
  - intros host port Hsplit Hport. rewrite Hsplit.
    apply String.eqb_neq in Hport. rewrite Hport. reflexivity.
  - intros host port suffix prefix Hsplit Hin Hhost. rewrite Hsplit.
    destruct (String.eqb port "80"); [| reflexivity]. cbn [negb].
    assert (Hs : hasInternalSuffix host internalSiteSuffixes = true).
    { apply hasInternalSuffix_true. exists suffix. split; [exact Hin |].
      apply HasSuffix_spec. eauto. }
    rewrite Hs. reflexivity.
  - intros host Hsplit Hnone. rewrite Hsplit. cbn [String.eqb negb].
    destruct (hasInternalSuffix host internalSiteSuffixes) eqn:Hs.
    + apply hasInternalSuffix_true in Hs as (suffix & Hin & Hsuf).
      apply HasSuffix_spec in Hsuf as [prefix Hp].
      exfalso. exact (Hnone suffix prefix Hin Hp).
    + replace (String.eqb "80" "80") with true by reflexivity.
      reflexivity.
  - intros n Hn Hroom. apply (add_room n); assumption.
Qed.

(** ** [attachHeaders] *)

Lemma canonical_keys :
  textproto.CanonicalMIMEHeaderKey "X-LANTERN-AUTH-TOKEN" = authKey
  /\ textproto.CanonicalMIMEHeaderKey "X-LANTERN-DEVICE-ID" = deviceKey
  /\ textproto.CanonicalMIMEHeaderKey "X-Lantern-Ping" = pingKey.
Proof. repeat split; vm_compute; reflexivity. Qed.

Lemma attachHeaders_eq g req deviceID w :
  attachHeaders g req deviceID w
  = (http.mkRequest (http.Method req) (http.URL req)
       (attached (effectiveToken g (server w)) deviceID (http.Hdr req)), w).
Proof.
  unfold attachHeaders, effectiveToken, attached. run_M.
  destruct (String.eqb (ForceAuthToken g) ""); cbn [negb];
    [destruct (String.eqb (AuthToken (server w)) "")
    | destruct (String.eqb (ForceAuthToken g) "")];
    reflexivity.
Qed.

Lemma attached_device tok deviceID h :
  attached tok deviceID h !! deviceKey = Some [deviceID].
Proof. unfold attached. apply lookup_insert_eq. Qed.

Lemma attached_auth tok deviceID h :
  attached tok deviceID h !! authKey
  = if String.eqb tok "" then h !! authKey
    else Some (default [] (h !! authKey) ++ [tok]).
Proof.
  unfold attached. rewrite lookup_insert_ne by discriminate.
  destruct (String.eqb tok ""); [reflexivity | apply lookup_insert_eq].
Qed.

Lemma canonical_ping :
  textproto.CanonicalMIMEHeaderKey "X-Lantern-Ping" = pingKey.
Proof. vm_compute. reflexivity. Qed.

Lemma pingKey_fresh : pingKey <> deviceKey /\ pingKey <> authKey.
Proof. split; vm_compute; discriminate. Qed.

Lemma attached_other tok deviceID h k :
  k <> deviceKey -> k <> authKey -> attached tok deviceID h !! k = h !! k.
Proof.
  intros Hd Ha. unfold attached. rewrite lookup_insert_ne by congruence.
  destruct (String.eqb tok ""); [reflexivity |].
  apply lookup_insert_ne. congruence.
Qed.

Lemma Values_auth h :
  http.Header_Values h "X-LANTERN-AUTH-TOKEN" = default [] (h !! authKey).
Proof. reflexivity. Qed.

Lemma Values_device h :
  http.Header_Values h "X-LANTERN-DEVICE-ID" = default [] (h !! deviceKey).
Proof. reflexivity. Qed.

(** C2, as stated, fails: with no token in force, a request that came in
    with an X-LANTERN-AUTH-TOKEN value still has it after
    [attachHeaders]. *)
Lemma attachHeaders_token_not_absent :
  let g := mkGlobals "" "" in
  let w := mkWorld (serverWithToken "") [] [] in
  effectiveToken g (server w) = ""
  /\ http.Hdr (attachHeaders g staleRequest "device" w).1
       !! textproto.CanonicalMIMEHeaderKey "X-LANTERN-AUTH-TOKEN"
     = Some ["stale"].
Proof. split; vm_compute; reflexivity. Qed.

(** C2, amended. [attachHeaders] changes nothing but the header of the
    request.  X-LANTERN-DEVICE-ID is set to the device identifier,
    whatever the request and the tokens.  The token in force is the forced
    token when that is not empty and the server's token otherwise.  When
    it is not empty it is appended to the X-LANTERN-AUTH-TOKEN values of
    the request; when it is empty these are left as they were, so the
    header is absent afterwards if the request came without it. *)
Theorem attachHeaders_headers (g : Globals) (req : http.Request)
        (deviceID : string) (w : world) :
  let req' := (attachHeaders g req deviceID w).1 in
  let tok := effectiveToken g (server w) in
  (attachHeaders g req deviceID w).2 = w
  /\ http.Method req' = http.Method req /\ http.URL req' = http.URL req
  /\ http.Header_Values (http.Hdr req') "X-LANTERN-DEVICE-ID" = [deviceID]
  /\ (ForceAuthToken g <> "" -> tok = ForceAuthToken g)
  /\ (ForceAuthToken g = "" -> tok = AuthToken (server w))
  /\ (tok <> "" ->
      http.Header_Values (http.Hdr req') "X-LANTERN-AUTH-TOKEN"
      = http.Header_Values (http.Hdr req) "X-LANTERN-AUTH-TOKEN" ++ [tok])
  /\ (tok = "" -> http.Hdr req' !! authKey = http.Hdr req !! authKey)
  /\ (http.Hdr req !! authKey = None ->
      (tok = "" -> http.Hdr req' !! authKey = None)
      /\ (tok <> "" ->
          http.Header_Get (http.Hdr req') "X-LANTERN-AUTH-TOKEN" = tok)).
Proof.
  intros req' tok. subst req' tok. rewrite attachHeaders_eq. cbn [fst snd http.Hdr http.Method http.URL].
  set (tok := effectiveToken g (server w)).
  split; [reflexivity |]. split; [reflexivity |]. split; [reflexivity |].
  split; [| split; [| split; [| split; [| split]]]].
  - rewrite Values_device, attached_device. reflexivity.
  - intros Hf. subst tok. unfold effectiveToken.
    apply String.eqb_neq in Hf. rewrite Hf. reflexivity.
  - intros Hf. subst tok. unfold effectiveToken. rewrite Hf. reflexivity.
  - intros Htok. rewrite !Values_auth, attached_auth.
    apply String.eqb_neq in Htok. rewrite Htok. reflexivity.
  - intros Htok. rewrite attached_auth, Htok. reflexivity.
  - intros Hnone. split; intros Htok.
    + rewrite attached_auth, Htok. exact Hnone.
    + unfold http.Header_Get. rewrite Values_auth, attached_auth.
      apply String.eqb_neq in Htok. rewrite Htok, Hnone. reflexivity.
Qed.

(** The spec's table for the header: token "T" and no override gives "T";
    override "O" gives "O" whatever the token; no token and no override
    gives no header. *)
Example attachHeaders_table :
  let fresh := http.mkRequest "GET" "http://example.com/" ∅ in
  let auth g tok :=
    http.Hdr (attachHeaders g fresh "device"
                (mkWorld (serverWithToken tok) [] [])).1 !! authKey in
  auth (mkGlobals "" "") "T" = Some ["T"]
  /\ auth (mkGlobals "" "O") "T" = Some ["O"]
  /\ auth (mkGlobals "" "") "" = None.
Proof. repeat split; vm_compute; reflexivity. Qed.

(** C10, as stated, fails: on a request that came in with one
    X-LANTERN-AUTH-TOKEN value, two applications leave three values. *)
Lemma attachHeaders_twice_three_values :
  let g := mkGlobals "" "" in
  let w := mkWorld (serverWithToken "T") [] [] in
  let req1 := (attachHeaders g staleRequest "device" w).1 in
  let req2 := (attachHeaders g req1 "device" w).1 in
  effectiveToken g (server w) = "T"
  /\ http.Header_Values (http.Hdr req2) "X-LANTERN-AUTH-TOKEN"
     = ["stale"; "T"; "T"]
  /\ length (http.Header_Values (http.Hdr req2) "X-LANTERN-AUTH-TOKEN") <> 2%nat.
Proof. repeat split; vm_compute; [reflexivity .. | discriminate]. Qed.

(** C10, amended. With a token in force, two applications of
    [attachHeaders] to a request leave exactly one X-LANTERN-DEVICE-ID
    value, as one application does, and leave the X-LANTERN-AUTH-TOKEN
    values the request came with followed by the token twice: each
    application appends.  A request that came without the header ends
    with exactly two values. *)
Theorem attachHeaders_twice (g : Globals) (req : http.Request)
        (deviceID : string) (w : world) :
  effectiveToken g (server w) <> "" ->
  let tok := effectiveToken g (server w) in
  let req1 := (attachHeaders g req deviceID w).1 in
  let req2 := (attachHeaders g req1 deviceID w).1 in
  http.Header_Values (http.Hdr req1) "X-LANTERN-DEVICE-ID" = [deviceID]
  /\ http.Header_Values (http.Hdr req2) "X-LANTERN-DEVICE-ID" = [deviceID]
  /\ http.Header_Values (http.Hdr req1) "X-LANTERN-AUTH-TOKEN"
     = http.Header_Values (http.Hdr req) "X-LANTERN-AUTH-TOKEN" ++ [tok]
  /\ http.Header_Values (http.Hdr req2) "X-LANTERN-AUTH-TOKEN"
     = http.Header_Values (http.Hdr req) "X-LANTERN-AUTH-TOKEN" ++ [tok; tok]
  /\ (http.Hdr req !! authKey = None ->
      http.Header_Values (http.Hdr req2) "X-LANTERN-AUTH-TOKEN" = [tok; tok]).
Proof.
  intros Htok tok req1 req2. subst req1 req2.
  rewrite !attachHeaders_eq. cbn [fst http.Hdr]. fold tok.
  apply String.eqb_neq in Htok. fold tok in Htok.
  rewrite !Values_device, !Values_auth, !attached_device, !attached_auth, Htok.
  cbn [from_option id]. unfold id. rewrite <- app_assoc. cbn [app].
  repeat split. intros ->. reflexivity.
Qed.

Lemma attachHeaders_twice_witness :
  let g := mkGlobals "" "" in
  let w := mkWorld (serverWithToken "T") [] [] in
  let fresh := http.mkRequest "HEAD" "http://ping-chained-server" ∅ in
  let req2 :=
    (attachHeaders g (attachHeaders g fresh "device" w).1 "device" w).1 in
  http.Header_Values (http.Hdr req2) "X-LANTERN-DEVICE-ID" = ["device"]
  /\ http.Header_Values (http.Hdr req2) "X-LANTERN-AUTH-TOKEN" = ["T"; "T"].
Proof.
  intros g w fresh req2.
  assert (Htok : effectiveToken g (server w) <> "") by (vm_compute; discriminate).
  destruct (attachHeaders_twice g fresh "device" w Htok)
    as (_ & Hdev & _ & Hauth & _).
  split; [exact Hdev | exact Hauth].
Defined.

(** ** [check] *)

Section Check.

Variable g : Globals.
Variable url_Parse : string -> option error.
Variable RoundTrip : dialer -> http.Request -> timed (Response + error).
Variable dial : dialer.
Variable deviceID : string.

Lemma NewRequest_HEAD url :
  NewRequest url_Parse "HEAD" url
  = match url_Parse url with
    | Some err => inr err
    | None => inl (http.mkRequest "HEAD" url ∅)
    end.
Proof. reflexivity. Qed.

(** One run of [check], case by case. *)
Lemma check_cases (w : world) :
  let t := (get (targets w)).1 in
  let q' := (get (targets w)).2 in
  let req := checkRequest g (server w) deviceID t in
  let b := (check g url_Parse RoundTrip dial deviceID w).1 in
  let w' := (check g url_Parse RoundTrip dial deviceID w).2 in
  match url_Parse (probeURL t) with
  | Some _ => b = false /\ sent w' = sent w /\ targets w' = q'
  | None =>
      sent w' = sent w ++ [req]
      /\ match RoundTrip dial req with
         | Hangs => b = false /\ targets w' = q'
         | Returns after (inr _) => b = false /\ targets w' = q'
         | Returns after (inl resp) =>
             b = (after <? 60 * time.Second) && (StatusCode resp <? 500)
             /\ targets w'
                = if (StatusCode resp <? 500) && negb (String.eqb t "")
                  then add t q' else q'
         end
  end.
Proof.
  intros t q' req b w'. subst b w'.
  destruct (check g url_Parse RoundTrip dial deviceID w) as [b w'] eqn:Hc.
  unfold check, checkTargets_get in Hc. run_M_in Hc.
  subst t q' req. unfold targets.
  destruct (get (checkTargets (server w))) as [t q'] eqn:Hget.
  cbn [fst snd]. run_M_in Hc.
  rewrite NewRequest_HEAD in Hc. fold (probeURL t) in Hc.
  destruct (url_Parse (probeURL t)) as [err |] eqn:Hurl.
  - run_M_in Hc. injection Hc as <- <-. auto.
  - rewrite attachHeaders_eq in Hc.
    match type of Hc with
    | context [probe RoundTrip dial ?r _ _] =>
        replace r with (checkRequest g (server w) deviceID t) in Hc
          by (unfold checkRequest, effectiveToken;
              destruct (String.eqb t ""); reflexivity)
    end.
    set (req := checkRequest g (server w) deviceID t) in *.
    unfold withtimeout.Do, probe, rt_RoundTrip in Hc. run_M_in Hc.
    destruct (RoundTrip dial req) as [after [resp | err] |].
    + revert Hc.
      destruct (BodyCloseErr resp), (StatusCode resp <? 500),
        (String.eqb t "");
        unfold checkTargets_add; run_M; cbn -[add Z.ltb Z.mul];
        destruct (after <? 60 * time.Second);
        cbn -[add Z.ltb Z.mul]; intros Hc; injection Hc as <- <-;
        cbn -[add Z.ltb Z.mul]; auto.
    + revert Hc. cbn -[add Z.ltb Z.mul].
      destruct (after <? 60 * time.Second);
        cbn -[add Z.ltb Z.mul]; intros Hc; injection Hc as <- <-;
        cbn -[add Z.ltb Z.mul]; auto.
    + cbn -[add Z.ltb Z.mul] in Hc. injection Hc as <- <-.
      cbn -[add Z.ltb Z.mul]. auto.
Qed.

Lemma sent_one_more (l : list http.Request) req req' :
  l ++ [req] = l ++ [req'] -> req = req'.
Proof. intros H. apply app_inv_head in H. congruence. Qed.

Lemma sent_not_more (l : list http.Request) req : l <> l ++ [req].
Proof.
  intros H. apply (f_equal length) in H. rewrite length_app in H.
  cbn in H. lia.
Qed.

(** The request of a run that sent one, and what came back for it. *)
Lemma check_sent (w : world) req :
  let t := (get (targets w)).1 in
  let q' := (get (targets w)).2 in
  let b := (check g url_Parse RoundTrip dial deviceID w).1 in
  let w' := (check g url_Parse RoundTrip dial deviceID w).2 in
  sent w' = sent w ++ [req] ->
  req = checkRequest g (server w) deviceID t
  /\ match RoundTrip dial req with
     | Hangs => b = false /\ targets w' = q'
     | Returns after (inr _) => b = false /\ targets w' = q'
     | Returns after (inl resp) =>
         b = (after <? 60 * time.Second) && (StatusCode resp <? 500)
         /\ targets w'
            = if (StatusCode resp <? 500) && negb (String.eqb t "")
              then add t q' else q'
     end.
Proof.
  intros t q' b w' Hsent. pose proof (check_cases w) as Hc.
  cbn zeta in Hc. fold t q' b w' in Hc.
  destruct (url_Parse (probeURL t)).
  - destruct Hc as (_ & Hs & _). rewrite Hs in Hsent.
    exfalso. exact (sent_not_more _ _ Hsent).
  - destruct Hc as (Hs & Hc). rewrite Hs in Hsent.
    apply sent_one_more in Hsent. subst req. split; [reflexivity | exact Hc].
Qed.

(** C1. In a run of [check] that handed a request to the transport:
    a transport error gives false; a response with a status code below
    500, back within the 60 seconds, gives true; a status code of 500 or
    more gives false; and when the 60 seconds are exceeded, or nothing
    ever comes back, the run gives false whatever comes back later. *)
Theorem check_classification (w : world) (req : http.Request) :
  let b := (check g url_Parse RoundTrip dial deviceID w).1 in
  let w' := (check g url_Parse RoundTrip dial deviceID w).2 in
  sent w' = sent w ++ [req] ->
  (forall after err,
     RoundTrip dial req = Returns after (inr err) -> b = false)
  /\ (forall after resp,
        RoundTrip dial req = Returns after (inl resp) ->
        after < 60 * time.Second -> StatusCode resp < 500 -> b = true)
  /\ (forall after resp,
        RoundTrip dial req = Returns after (inl resp) ->
        500 <= StatusCode resp -> b = false)
  /\ (forall after r,
        RoundTrip dial req = Returns after r ->
        60 * time.Second < after -> b = false)
  /\ (RoundTrip dial req = Hangs -> b = false).
Proof.
  intros b w' Hsent.
  destruct (check_sent w req Hsent) as [_ Hc]. fold b w' in Hc.
  repeat split.
  - intros after err Hrt. rewrite Hrt in Hc. apply Hc.
  - intros after resp Hrt Hafter Hcode. rewrite Hrt in Hc.
    destruct Hc as [-> _].
    apply Z.ltb_lt in Hafter, Hcode. rewrite Hafter, Hcode. reflexivity.
  - intros after resp Hrt Hcode. rewrite Hrt in Hc. destruct Hc as [-> _].
    apply Z.ltb_ge in Hcode. rewrite Hcode. apply andb_false_r.
  - intros after r Hrt Hafter. rewrite Hrt in Hc.
    assert (Hlate : (after <? 60 * time.Second) = false)
      by (apply Z.ltb_ge; lia).
    destruct r as [resp | err]; [| apply Hc].
    destruct Hc as [-> _]. rewrite Hlate. reflexivity.
  - intros Hrt. rewrite Hrt in Hc. apply Hc.
Qed.

(** C7. In a run of [check] that handed a request to the transport,
    with [t] the target popped and [q'] the list left by the pop: when
    [t] is a real target and the response has a status code below 500,
    the targets afterwards are [add t q'], which on a list within its
    capacity is the rest of the list followed by [t]; when the synthetic
    target was used, or the probe met a transport error, a status code
    of 500 or more, or no answer at all, the targets afterwards are
    [q'], nothing pushed back. *)
Theorem check_push_back (w : world) (req : http.Request) :
  let t := (get (targets w)).1 in
  let q' := (get (targets w)).2 in
  let w' := (check g url_Parse RoundTrip dial deviceID w).2 in
  sent w' = sent w ++ [req] ->
  (forall after resp,
     t <> "" -> RoundTrip dial req = Returns after (inl resp) ->
     StatusCode resp < 500 ->
     targets w' = add t q'
     /\ forall n, within n (targets w) ->
          resident (targets w') = tail (resident (targets w)) ++ [t])
  /\ (t = "" -> targets w' = q')
  /\ (forall after err,
        RoundTrip dial req = Returns after (inr err) -> targets w' = q')
  /\ (forall after resp,
        RoundTrip dial req = Returns after (inl resp) ->
        500 <= StatusCode resp -> targets w' = q')
  /\ (RoundTrip dial req = Hangs -> targets w' = q').
Proof.
  intros t q' w' Hsent.
  destruct (check_sent w req Hsent) as [_ Hc]. fold t q' w' in Hc.
  split; [| split; [| split; [| split]]].
  - intros after resp Ht Hrt Hcode. rewrite Hrt in Hc.
    destruct Hc as [_ Hc].
    apply Z.ltb_lt in Hcode. apply String.eqb_neq in Ht.
    rewrite Hcode, Ht in Hc. cbn [andb negb] in Hc.
    split; [exact Hc |]. intros n (l & Hq & Hl). rewrite Hc.
    apply String.eqb_neq in Ht. subst t q'.
    unfold get, resident, add in *. rewrite Hq in *.
    destruct l as [| a l]; cbn [fst] in Ht; [congruence |].
    cbn [snd ch buf cap tail]. cbn [length] in Hl.
    destruct (Nat.ltb_spec (length l) n); [reflexivity | lia].
  - intros Ht. destruct (RoundTrip dial req) as [after [resp | err] |];
      try apply Hc.
    destruct Hc as [_ ->]. rewrite Ht, andb_false_r. reflexivity.
  - intros after err Hrt. rewrite Hrt in Hc. apply Hc.
  - intros after resp Hrt Hcode. rewrite Hrt in Hc. destruct Hc as [_ ->].
    apply Z.ltb_ge in Hcode. rewrite Hcode. reflexivity.
  - intros Hrt. rewrite Hrt in Hc. apply Hc.
Qed.


End Check.

(** ** The dial function of the built dialer *)



(** ** Construction *)

Section Construction.

Variable g : Globals.
Variable dialFN : Type.
Variable pluggableTransports : gmap string (dialFactory dialFN).
Variable NewDialer : chained.Config dialFN -> dialer.
Variable url_Parse : string -> option error.
Variable RoundTrip : dialer -> http.Request -> timed (Response + error).

(** C4. When the registry has no dial factory under the transport name
    of the server, empty or not, [Dialer] returns an error, the one for
    a transport without factory, and no dialer; the check targets are
    not even initialised. *)
Theorem Dialer_unsupported_transport (deviceID : string) (w : world) :
  pluggableTransports !! PluggableTransport (server w) = None ->
  let r := (Dialer g dialFN pluggableTransports NewDialer url_Parse
              RoundTrip deviceID w).1 in
  let w' := (Dialer g dialFN pluggableTransports NewDialer url_Parse
               RoundTrip deviceID w).2 in
  r = inr ("No dial factory defined for transport: "
           +:+ PluggableTransport (server w))
  /\ (forall dialer, r <> inl dialer)
  /\ targets w' = targets w.
Proof.
  intros Hnone r w'. subst r w'. unfold Dialer. run_M.
  unfold dialFactory in *.
  destruct (negb (String.eqb (PluggableTransport (server w)) ""));
    unfold log.Debugf, log.write; cbn [server]; rewrite Hnone;
    cbn [fst snd]; (split; [reflexivity | split; [discriminate | reflexivity]]).
Qed.

(** A factory that fails stops the construction as well. *)
Lemma Dialer_factory_error (deviceID : string) (w : world) factory err :
  pluggableTransports !! PluggableTransport (server w) = Some factory ->
  factory g (server w) deviceID = inr err ->
  (Dialer g dialFN pluggableTransports NewDialer url_Parse RoundTrip
     deviceID w).1
  = inr ("Unable to construct dialFN: " +:+ err).
Proof.
  intros Hf Herr. unfold Dialer. run_M. unfold dialFactory in *.
  destruct (negb (String.eqb (PluggableTransport (server w)) ""));
    unfold log.Debugf, log.write; cbn [server]; rewrite Hf, Herr;
    reflexivity.
Qed.

(** A registered factory that succeeds gives a dialer, over targets
    initialised with capacity 10 when they were not initialised yet. *)
Lemma Dialer_built (deviceID : string) (w : world) factory dial :
  pluggableTransports !! PluggableTransport (server w) = Some factory ->
  factory g (server w) deviceID = inl dial ->
  exists bd,
    Dialer g dialFN pluggableTransports NewDialer url_Parse RoundTrip
      deviceID w
    = (inl bd, (Dialer g dialFN pluggableTransports NewDialer url_Parse
                  RoundTrip deviceID w).2)
    /\ balancer.Trusted bd = Trusted (server w)
    /\ targets (Dialer g dialFN pluggableTransports NewDialer url_Parse
                  RoundTrip deviceID w).2
       = initIfNecessary 10 (targets w).
Proof.
  intros Hf Hdial. unfold Dialer. run_M. unfold dialFactory in *.
  destruct (negb (String.eqb (PluggableTransport (server w)) ""));
    unfold log.Debugf, log.write; cbn [server]; rewrite Hf, Hdial;
    cbn [fst snd]; eexists; (split; [reflexivity | split; reflexivity]).
Qed.

End Construction.

(** ** The forced proxy address *)

(** The methods of [chained.go] do not read [ForceChainedProxyAddr]
    themselves: header attachment and checks are the same functions
    whatever the address is, and [Dialer] builds the same dialer when the
    dial factories return the same for both addresses. *)
Lemma attachHeaders_ignores_forced_addr a b tok :
  attachHeaders (mkGlobals a tok) = attachHeaders (mkGlobals b tok).
Proof. reflexivity. Qed.

Lemma check_ignores_forced_addr a b tok url_Parse RoundTrip :
  check (mkGlobals a tok) url_Parse RoundTrip
  = check (mkGlobals b tok) url_Parse RoundTrip.
Proof. reflexivity. Qed.

Lemma Dialer_ignores_forced_addr a b tok (dialFN : Type)
      (registry : gmap string (dialFactory dialFN))
      NewDialer url_Parse RoundTrip deviceID w :
  (forall factory,
     registry !! PluggableTransport (server w) = Some factory ->
     factory (mkGlobals a tok) (server w) deviceID
     = factory (mkGlobals b tok) (server w) deviceID) ->
  Dialer (mkGlobals a tok) dialFN registry NewDialer url_Parse RoundTrip
    deviceID w
  = Dialer (mkGlobals b tok) dialFN registry NewDialer url_Parse RoundTrip
      deviceID w.
Proof.
  intros Hsame. unfold Dialer. run_M. unfold dialFactory in *.
  destruct (negb (String.eqb (PluggableTransport (server w)) ""));
    unfold log.Debugf, log.write; cbn [server];
    (destruct (registry !! PluggableTransport (server w)) as [factory |];
     [rewrite (Hsame factory eq_refl) | ]; reflexivity).
Qed.


(** The connection a dial returns goes through the configured address
    when nothing is forced and through the forced address otherwise. *)
Example dial_goes_through :
  let dialed forced :=
    match observed (mkGlobals forced "") Fixture.rawDial
            Fixture.pluggableTransports Fixture.NewDialer parse_all
            (answers (status 200)) "device" "tcp" "example.com:80"
            (mkWorld (serverWithToken "T") [] []) with
    | inr (conn, _, _) => Some conn
    | inl _ => None
    end in
  dialed ""
  = Some (inl (Idletiming (Tunnel (TCP "10.0.0.1:443") "tcp" "example.com:80")
                 3600000000000 (LogAndClose "example.com:80")))
  /\ dialed "10.9.9.9:443"
     = Some (inl (Idletiming
                    (Tunnel (TCP "10.9.9.9:443") "tcp" "example.com:80")
                    3600000000000 (LogAndClose "example.com:80"))).
Proof. split; vm_compute; reflexivity. Qed.

(** The forced auth token, by contrast, is read: it changes the request a
    check sends. *)
Example forced_auth_token_is_read :
  sent (check (mkGlobals "" "") parse_all (answers (status 200)) openNet
          "device" (mkWorld (serverWithToken "T") [] [])).2
  <> sent (check (mkGlobals "" "O") parse_all (answers (status 200)) openNet
             "device" (mkWorld (serverWithToken "T") [] [])).2.
Proof. vm_compute. discriminate. Qed.

(** ** Runs on concrete inputs *)

(** The spec's table: 200 and 404 give true; 503, a transport error and a
    request that takes more than 60 seconds give false. *)
Example check_table :
  (run_check (status 200) oneTarget).1 = true
  /\ (run_check (status 404) oneTarget).1 = true
  /\ (run_check (status 503) oneTarget).1 = false
  /\ (run_check (Returns time.Second (inr "connection refused")) oneTarget).1
     = false
  /\ (run_check (Returns (61 * time.Second) (inl (mkResponse 200 None)))
        oneTarget).1 = false
  /\ (run_check Hangs oneTarget).1 = false.
Proof. repeat split; vm_compute; reflexivity. Qed.

(** A good probe keeps its target; a bad one loses it; a good answer that
    comes late still puts the target back, while the run says false. *)
Example check_rotation :
  resident (targets (run_check (status 200) oneTarget).2) = ["example.com:80"]
  /\ resident (targets (run_check (status 503) oneTarget).2) = []
  /\ resident (targets
       (run_check (Returns (61 * time.Second) (inl (mkResponse 200 None)))
          oneTarget).2) = ["example.com:80"]
  /\ resident (targets (run_check (status 200) noTarget).2) = [].
Proof. repeat split; vm_compute; reflexivity. Qed.

(** The requests sent with a target and without one. *)
Example check_requests :
  sent (run_check (status 200) oneTarget).2
  = [http.mkRequest "HEAD" "http://example.com:80/index.html"
       (<[deviceKey := ["device"]]> (<[authKey := ["T"]]> ∅))]
  /\ sent (run_check (status 200) noTarget).2
     = [http.mkRequest "HEAD" "http://ping-chained-server"
          (<[deviceKey := ["device"]]>
             (<[authKey := ["T"]]> (<[pingKey := ["small"]]> ∅)))].
Proof. split; vm_compute; reflexivity. Qed.

(** The scenario of the spec: a server with no pluggable transport and no
    target; a first dial to example.com:80 succeeds and the address is then
    the check target; a check answered by 200 says true and puts the
    address back. *)
Example end_to_end :
  let s := mkChainedServerInfo "10.0.0.1:443" "" "T" false "" ∅ nilList in
  match Dialer noGlobals Fixture.rawDial
          Fixture.pluggableTransports
          Fixture.NewDialer parse_all (answers (status 200)) "device"
          (mkWorld s [] []) with
  | (inl d, w0) =>
      let (conn, w1) := balancer.DialFN d "tcp" "example.com:80" w0 in
      let (ok, w2) := balancer.Check d w1 in
      resident (targets w0) = []
      /\ resident (targets w1) = ["example.com:80"]
      /\ ok = true
      /\ resident (targets w2) = ["example.com:80"]
  | (inr _, _) => False
  end.
Proof. vm_compute. repeat split. Qed.

Lemma check_classification_witness :
  (run_check (status 200) oneTarget).1 = true.
Proof.
  pose (req := checkRequest noGlobals (server oneTarget) "device"
                 "example.com:80").
  assert (Hsent : sent (run_check (status 200) oneTarget).2
                  = sent oneTarget ++ [req]) by (vm_compute; reflexivity).
  destruct (check_classification noGlobals parse_all (answers (status 200))
              someDial "device" oneTarget req Hsent) as (_ & Hok & _).
  apply (Hok time.Second (mkResponse 200 None)); reflexivity.
Defined.

Lemma check_push_back_witness :
  targets (run_check (status 200) oneTarget).2
  = add "example.com:80" freshList.
Proof.
  pose (req := checkRequest noGlobals (server oneTarget) "device"
                 "example.com:80").
  assert (Hsent : sent (run_check (status 200) oneTarget).2
                  = sent oneTarget ++ [req]) by (vm_compute; reflexivity).
  destruct (check_push_back noGlobals parse_all (answers (status 200))
              someDial "device" oneTarget req Hsent) as (Hback & _).
  destruct (Hback time.Second (mkResponse 200 None)) as [Ht _];
    [discriminate | reflexivity | reflexivity |].
  exact Ht.
Defined.

Lemma Dialer_unsupported_transport_witness :
  let s := mkChainedServerInfo "10.0.0.1:443" "" "T" false "obfs4" ∅ nilList in
  (Dialer noGlobals Fixture.rawDial
     Fixture.pluggableTransports
     Fixture.NewDialer parse_all (answers (status 200)) "device"
     (mkWorld s [] [])).1
  = inr "No dial factory defined for transport: obfs4".
Proof.
  intros s.
  apply (Dialer_unsupported_transport noGlobals Fixture.rawDial
           Fixture.pluggableTransports
           Fixture.NewDialer parse_all (answers (status 200)) "device"
           (mkWorld s [] [])).
  vm_compute. reflexivity.
Defined.

Lemma checkTargets_bounded_witness :
  let ops := map Add ["a"; "b"; "c"; "d"; "e"; "f"; "g"; "h"; "i"; "j"] in
  add "k" (run ops freshList).2 = (run ops freshList).2.
Proof.
  intros ops.
  destruct (checkTargets_bounded ops) as (_ & Hfull & _).
  apply Hfull. reflexivity.
Defined.

Lemma addCheckTarget_policy_witness :
  targets (addCheckTarget "example.com:80" noTarget).2
  = add "example.com:80" (targets noTarget).
Proof.
  destruct (addCheckTarget_policy "example.com:80" noTarget)
    as (_ & _ & _ & Hadd & _).
  apply (Hadd "example.com"); [reflexivity |].
  intros suffix prefix Hin Hhost.
  assert (Hs : strings.HasSuffix "example.com" suffix = true)
    by (apply HasSuffix_spec; eauto).
  destruct Hin as [<- | [<- | [<- | []]]]; vm_compute in Hs; discriminate.
Defined.

Lemma attachHeaders_headers_witness :
  let fresh := http.mkRequest "HEAD" "http://ping-chained-server" ∅ in
  http.Header_Values
    (http.Hdr (attachHeaders noGlobals fresh "device" oneTarget).1)
    "X-LANTERN-AUTH-TOKEN" = ["T"].
Proof.
  intros fresh.
  destruct (attachHeaders_headers noGlobals fresh "device" oneTarget)
    as (_ & _ & _ & _ & _ & _ & Happend & _).
  apply Happend. vm_compute. discriminate.
Defined.



(** * Further properties *)

(** ** The list as a queue *)

Lemma firstn_firstn_app {A} (n : nat) (x y : list A) :
  firstn n (firstn n x ++ y) = firstn n (x ++ y).
Proof.
  revert x. induction n as [| n IH]; intros [| a x]; cbn; try reflexivity.
  f_equal. apply IH.
Qed.

Lemma resident_add n q addr :
  within n q -> resident (add addr q) = firstn n (resident q ++ [addr]).
Proof.
  intros Hq. pose proof Hq as (l & Hch & Hl).
  destruct (Nat.lt_ge_cases (length (resident q)) n) as [Hlt | Hge].
  - rewrite (add_room n) by assumption.
    rewrite firstn_all2; [reflexivity |]. rewrite length_app. cbn. lia.
  - assert (Hfull : length (resident q) = n).
    { unfold resident in *. rewrite Hch in *. cbn in *. lia. }
    rewrite (add_full n) by assumption.
    rewrite firstn_app, Hfull, Nat.sub_diag. cbn [firstn].
    rewrite app_nil_r, <- Hfull, firstn_all. reflexivity.
Qed.

Lemma resident_adds n l : forall q,
  within n q ->
  resident (run (map Add l) q).2 = firstn n (resident q ++ l).
Proof.
  induction l as [| a l IH]; intros q Hq; cbn [map run].
  - rewrite app_nil_r. cbn [snd]. rewrite firstn_all2; [reflexivity |].
    apply within_resident, Hq.
  - rewrite IH by apply within_add, Hq.
    rewrite (resident_add n) by assumption.
    rewrite firstn_firstn_app, <- app_assoc. reflexivity.
Qed.

(** X1. Adding strings one after the other to a list just initialised with
    capacity 10 leaves the first ten of them resident, in the order they
    came: the later ones are the ones dropped. *)
Theorem adds_keep_first_ten (l : list string) :
  resident (run (map Add l) freshList).2 = firstn 10 l.
Proof. apply (resident_adds 10 l freshList), within_fresh. Qed.

Lemma drain n k : forall l,
  run (repeat Get k) (mkSiteList (Some (mkChan n l)))
  = (firstn k l ++ repeat "" (k - length l),
     mkSiteList (Some (mkChan n (skipn k l)))).
Proof.
  induction k as [| k IH]; intros l; [reflexivity |].
  cbn [repeat run]. destruct l as [| a l]; cbn [get ch].
  - rewrite IH. cbn. rewrite skipn_nil, firstn_nil, Nat.sub_0_r.
    reflexivity.
  - rewrite IH. reflexivity.
Qed.

(** X2. The list is a queue: after strings were added to a list just
    initialised, [k] gets return the resident ones, oldest first, then the
    empty string once nothing is left, and leave what they did not
    reach. *)
Theorem gets_are_fifo (l : list string) (k : nat) :
  let q := (run (map Add l) freshList).2 in
  (run (repeat Get k) q).1
  = firstn k (firstn 10 l) ++ repeat "" (k - length (firstn 10 l))
  /\ resident (run (repeat Get k) q).2 = skipn k (firstn 10 l).
Proof.
  intros q.
  assert (Hq : within 10 q) by apply within_run, within_fresh.
  pose proof (adds_keep_first_ten l) as Hres. fold q in Hres.
  destruct Hq as (r & Hch & _). destruct q as [c]. cbn in Hch. subst c.
  cbn in Hres. subst r. rewrite drain. split; reflexivity.
Qed.

Lemma get_from q :
  ((get q).1 = "" \/ In (get q).1 (resident q))
  /\ incl (resident (get q).2) (resident q).
Proof.
  unfold get, resident. destruct q as [[[n [| a l]] |]]; cbn.
  - split; [left; reflexivity | apply incl_refl].
  - split; [right; left; reflexivity | apply incl_tl, incl_refl].
  - split; [left; reflexivity | apply incl_refl].
Qed.

Lemma add_from addr q : incl (resident (add addr q)) (resident q ++ [addr]).
Proof.
  unfold add, resident. destruct q as [[[n l] |]]; cbn [ch buf cap].
  - destruct (length l <? n)%nat; cbn [ch buf];
      [apply incl_refl | apply incl_appl, incl_refl].
  - intros x [].
Qed.

Lemma run_from ops : forall q,
  (forall x, In x (run ops q).1 ->
             x = "" \/ In x (resident q) \/ In x (added ops))
  /\ incl (resident (run ops q).2) (resident q ++ added ops).
Proof.
  induction ops as [| [addr |] ops IH]; intros q; cbn [run added].
  - split; [intros x [] | rewrite app_nil_r; apply incl_refl].
  - destruct (IH (add addr q)) as [Hout Hres].
    pose proof (add_from addr q) as Hadd. split.
    + intros x Hx. destruct (Hout x Hx) as [-> | [Hin | Hin]]; auto.
      * apply Hadd, in_app_or in Hin. destruct Hin as [Hin | [<- | []]];
          cbn; auto.
      * cbn; auto.
    + intros x Hx. apply Hres, in_app_or in Hx. apply in_or_app.
      destruct Hx as [Hx | Hx]; [| right; right; exact Hx].
      apply Hadd, in_app_or in Hx.
      destruct Hx as [Hx | [<- | []]]; [left | right; left]; auto.
  - pose proof (get_from q) as [Hx0 Hq']. destruct (get q) as [x0 q'].
    cbn [fst snd] in *. destruct (IH q') as [Hout Hres].
    destruct (run ops q') as [xs q'']. cbn [fst snd] in *. split.
    + intros x [<- | Hx]; [destruct Hx0; auto |].
      destruct (Hout x Hx) as [-> | [Hin | Hin]]; auto.
    + intros x Hx. apply Hres, in_app_or in Hx. apply in_or_app.
      destruct Hx as [Hx | Hx]; [left; apply Hq', Hx | right; exact Hx].
Qed.

(** X3. On a list just initialised, whatever adds and gets are made, a get
    only ever returns the empty string or a string that was added, and
    only added strings are resident. *)
Theorem get_returns_added (ops : list op) :
  (forall x, In x (run ops freshList).1 -> x = "" \/ In x (added ops))
  /\ (forall x, In x (resident (run ops freshList).2) -> In x (added ops)).
Proof.
  destruct (run_from ops freshList) as [Hout Hres]. split.
  - intros x Hx. destruct (Hout x Hx) as [-> | [[] | Hin]]; auto.
  - intros x Hx. apply Hres in Hx. exact Hx.
Qed.

(** X4. A list that was never initialised takes nothing and gives nothing:
    on the nil channel every add is dropped, every get returns the empty
    string, and the list stays as it is. *)
Theorem nil_list_inert (ops : list op) :
  run ops nilList = (repeat "" (gets ops), nilList).
Proof.
  induction ops as [| [addr |] ops IH]; cbn [run gets repeat].
  - reflexivity.
  - exact IH.
  - cbn [get nilList ch]. change (mkSiteList None) with nilList.
    rewrite IH. reflexivity.
Qed.

(** ** What the methods do to the state *)

Lemma addCheckTarget_world (addr : string) (w : world) :
  (addCheckTarget addr w).2
  = if okTarget addr
    then mkWorld (withTargets (server w) (add addr (targets w)))
           (logged w) (sent w)
    else mkWorld (server w) (logged w ++ [skipEntry addr]) (sent w).
Proof.
  unfold addCheckTarget, okTarget, skipEntry.
  destruct (net.SplitHostPort addr) as [[host port] | e]; [| reflexivity].
  destruct (String.eqb port "80"); [| reflexivity].
  destruct (hasInternalSuffix host internalSiteSuffixes); reflexivity.
Qed.

Lemma DialFN_world (d : dialer) (network addr : string) (w : world) :
  (DialFN d network addr w).2
  = match d network addr with
    | inl _ => (addCheckTarget addr w).2
    | inr _ => w
    end.
Proof.
  unfold DialFN. destruct (d network addr); [| reflexivity].
  run_M. destruct (addCheckTarget addr w). reflexivity.
Qed.

Section CheckWorld.

Variable g : Globals.
Variable url_Parse : string -> option error.
Variable RoundTrip : dialer -> http.Request -> timed (Response + error).
Variable dial : dialer.
Variable deviceID : string.

(** One run of [check] in full: the result and the state left. *)
Lemma check_world (w : world) :
  let t := (get (targets w)).1 in
  let q' := (get (targets w)).2 in
  let req := checkRequest g (server w) deviceID t in
  check g url_Parse RoundTrip dial deviceID w
  = match url_Parse (probeURL t) with
    | Some err =>
        (false,
         mkWorld (withTargets (server w) q')
           (logged w
            ++ [mkEntry Error "Could not create HTTP request: %v" [VStr err]])
           (sent w))
    | None =>
        let r := RoundTrip dial req in
        let ok :=
          match r with
          | Returns after (inl resp) => StatusCode resp <? 500
          | _ => false
          end in
        let inTime :=
          match r with
          | Returns after _ => after <? 60 * time.Second
          | Hangs => false
          end in
        (inTime && ok,
         mkWorld
           (withTargets (server w)
              (if ok && negb (String.eqb t "") then add t q' else q'))
           (logged w ++ probeLog (server w) (probeURL t) r)
           (sent w ++ [req]))
    end.
Proof.
  intros t q' req. subst t q' req.
  unfold check, checkTargets_get. run_M. unfold targets.
  destruct (get (checkTargets (server w))) as [t q'] eqn:Hget.
  cbn [fst snd]. unfold set_checkTargets. run_M.
  rewrite NewRequest_HEAD. fold (probeURL t).
  destruct (url_Parse (probeURL t)) as [err |] eqn:Hurl.
  - reflexivity.
  - rewrite attachHeaders_eq.
    match goal with
    | |- context [probe RoundTrip dial ?r _ _] =>
        replace r with (checkRequest g (server w) deviceID t)
          by (unfold checkRequest, effectiveToken;
              destruct (String.eqb t ""); reflexivity)
    end.
    set (req := checkRequest g (server w) deviceID t).
    unfold withtimeout.Do, probe, rt_RoundTrip, probeLog, timedOutEntry,
      withTargets. run_M.
    destruct (RoundTrip dial req) as [after [resp | err] |].
    + destruct (BodyCloseErr resp), (StatusCode resp <? 500),
        (String.eqb t "");
        unfold checkTargets_add, set_checkTargets, log.Debugf, log.Errorf,
          log.write;
        run_M; cbn -[add Z.ltb Z.mul];
        destruct (after <? 60 * time.Second);
        cbn -[add Z.ltb Z.mul]; rewrite <- ?app_assoc; reflexivity.
    + unfold log.Debugf, log.Errorf, log.write. cbn -[add Z.ltb Z.mul].
      destruct (after <? 60 * time.Second);
        cbn -[add Z.ltb Z.mul]; rewrite <- ?app_assoc; reflexivity.
    + reflexivity.
Qed.

End CheckWorld.

Lemma withTargets_id (s : ChainedServerInfo) :
  withTargets s (checkTargets s) = s.
Proof. destruct s. reflexivity. Qed.

(** ** Construction, again *)

Section Built.

Variable g : Globals.
Variable dialFN : Type.
Variable pluggableTransports : gmap string (dialFactory dialFN).
Variable NewDialer : chained.Config dialFN -> dialer.
Variable url_Parse : string -> option error.
Variable RoundTrip : dialer -> http.Request -> timed (Response + error).
Variable deviceID : string.

(** What a successful construction gives and leaves. *)
Lemma Dialer_inl (w w0 : world) (bd : balancer.Dialer) :
  Dialer g dialFN pluggableTransports NewDialer url_Parse RoundTrip
    deviceID w = (inl bd, w0) ->
  (exists d, builtOver g url_Parse RoundTrip deviceID d bd)
  /\ server w0 = withTargets (server w) (initIfNecessary 10 (targets w))
  /\ sent w0 = sent w
  /\ (exists es, logged w0 = logged w ++ es).
Proof.
  unfold Dialer. run_M. unfold dialFactory in *.
  destruct (negb (String.eqb (PluggableTransport (server w)) ""));
    unfold log.Debugf, log.write; cbn [server];
    (destruct (pluggableTransports !! PluggableTransport (server w))
       as [factory |]; [| discriminate]);
    (destruct (factory g (server w) deviceID) as [dial | err];
       [| discriminate]);
    cbn; intros H; injection H as <- <-;
    (split; [eexists; repeat split | split; [reflexivity |]]);
    (split; [reflexivity |]); cbn [logged];
    [eauto | exists []; now rewrite app_nil_r].
Qed.

(** X5. Building a dialer again for a server whose check targets are
    initialised leaves the targets as they are, whatever the outcome of
    the construction: the list is made once and not reset. *)
Theorem Dialer_keeps_targets (w : world) :
  ch (targets w) <> None ->
  targets (Dialer g dialFN pluggableTransports NewDialer url_Parse RoundTrip
             deviceID w).2 = targets w.
Proof.
  intros Hinit. unfold Dialer. run_M. unfold dialFactory in *.
  destruct (negb (String.eqb (PluggableTransport (server w)) ""));
    unfold log.Debugf, log.write; cbn [server];
    (destruct (pluggableTransports !! PluggableTransport (server w))
       as [factory |]; [| reflexivity]);
    (destruct (factory g (server w) deviceID) as [dial | err];
       [| reflexivity]);
    unfold checkTargets_initIfNecessary, set_checkTargets; run_M;
    cbn [fst snd]; unfold targets in *; cbn [server checkTargets];
    unfold initIfNecessary;
    (destruct (ch (checkTargets (server w))); [reflexivity | congruence]).
Qed.

(** X6. When the dial factory of the transport fails, [Dialer] returns
    an error that wraps the cause and no dialer, sends nothing and leaves
    the check targets, initialised or not, as they were. *)
Theorem Dialer_factory_fails (w : world) factory err :
  pluggableTransports !! PluggableTransport (server w) = Some factory ->
  factory g (server w) deviceID = inr err ->
  let r := Dialer g dialFN pluggableTransports NewDialer url_Parse RoundTrip
             deviceID w in
  r.1 = inr ("Unable to construct dialFN: " +:+ err)
  /\ targets r.2 = targets w
  /\ sent r.2 = sent w.
Proof.
  intros Hf Herr. unfold Dialer. run_M. unfold dialFactory in *.
  destruct (negb (String.eqb (PluggableTransport (server w)) ""));
    unfold log.Debugf, log.write; cbn [server]; rewrite Hf, Herr;
    cbn; auto.
Qed.

End Built.

(** ** Calls on a built dialer *)

Lemma DialFN_targets (d : dialer) (network addr : string) (w : world) :
  targets (DialFN d network addr w).2 = targets w
  \/ (okTarget addr = true
      /\ targets (DialFN d network addr w).2 = add addr (targets w)).
Proof.
  rewrite DialFN_world. destruct (d network addr); [| left; reflexivity].
  rewrite addCheckTarget_world.
  destruct (okTarget addr); [right; split | left]; reflexivity.
Qed.

Lemma DialFN_frame (d : dialer) (network addr : string) (w : world) :
  let w' := (DialFN d network addr w).2 in
  server w' = withTargets (server w) (targets w')
  /\ (exists es, logged w' = logged w ++ es)
  /\ sent w' = sent w.
Proof.
  cbn zeta. rewrite DialFN_world. unfold targets.
  destruct (d network addr).
  - rewrite addCheckTarget_world. destruct (okTarget addr); cbn.
    + split; [reflexivity |]. split; [exists []; now rewrite app_nil_r |].
      reflexivity.
    + split; [now rewrite withTargets_id |]. split; [eauto | reflexivity].
  - split; [now rewrite withTargets_id |].
    split; [exists []; now rewrite app_nil_r | reflexivity].
Qed.

Section Calls.

Variable g : Globals.
Variable url_Parse : string -> option error.
Variable RoundTrip : dialer -> http.Request -> timed (Response + error).
Variable deviceID : string.
Variable d : dialer.

Lemma check_targets (w : world) :
  let t := (get (targets w)).1 in
  let q' := (get (targets w)).2 in
  targets (check g url_Parse RoundTrip d deviceID w).2 = q'
  \/ (t <> ""
      /\ targets (check g url_Parse RoundTrip d deviceID w).2 = add t q').
Proof.
  cbn zeta. rewrite check_world. cbn zeta.
  destruct (url_Parse _); [left; reflexivity |]. cbn [snd]. unfold targets at 1 4.
  cbn [server withTargets checkTargets].
  match goal with
  | |- context [if ?b && negb ?e then _ else _] =>
      destruct b; cbn [andb]; [| left; reflexivity];
      destruct e eqn:He; cbn [negb]; [left; reflexivity |]
  end.
  right. split; [| reflexivity]. apply String.eqb_neq, He.
Qed.

Lemma check_frame (w : world) :
  let w' := (check g url_Parse RoundTrip d deviceID w).2 in
  server w' = withTargets (server w) (targets w')
  /\ (exists es, logged w' = logged w ++ es)
  /\ (exists rs, sent w' = sent w ++ rs /\ (length rs <= 1)%nat).
Proof.
  cbn zeta. rewrite check_world. cbn zeta.
  destruct (url_Parse _); cbn [snd]; unfold targets;
    cbn [server logged sent withTargets checkTargets].
  - split; [reflexivity |]. split; [eauto |].
    exists []. rewrite app_nil_r. split; [reflexivity | cbn; lia].
  - split; [reflexivity |]. split; [eauto |].
    eexists. split; [reflexivity | cbn; lia].
Qed.

Variable bd : balancer.Dialer.
Hypothesis Hbd : builtOver g url_Parse RoundTrip deviceID d bd.

Lemma calls_within n (cs : list call) : forall w,
  within n (targets w) -> within n (targets (calls bd cs w)).
Proof.
  destruct Hbd as (Hdial & Hcheck & _).
  induction cs as [| [network addr |] cs IH]; intros w Hw; cbn [calls].
  - exact Hw.
  - apply IH. rewrite Hdial.
    destruct (DialFN_targets d network addr w) as [-> | [_ ->]];
      [exact Hw | apply within_add, Hw].
  - apply IH. rewrite Hcheck.
    destruct (check_targets w) as [-> | [_ ->]];
      [| apply within_add]; apply within_get, Hw.
Qed.

Lemma Forall_incl {A} (P : A -> Prop) (l l' : list A) :
  incl l' l -> Forall P l -> Forall P l'.
Proof.
  intros Hincl Hl. apply List.Forall_forall. intros x Hx.
  rewrite List.Forall_forall in Hl. apply Hl, Hincl, Hx.
Qed.

Lemma targetsOk_add (q : siteList) addr :
  okTarget addr = true ->
  Forall (fun a => okTarget a = true) (resident q) ->
  Forall (fun a => okTarget a = true) (resident (add addr q)).
Proof.
  intros Hok Hq. apply (Forall_incl _ (resident q ++ [addr]));
    [apply add_from |].
  apply Forall_app. split; [exact Hq | repeat constructor; exact Hok].
Qed.

(** Calls keep the targets clean. *)
Lemma calls_keep_targets_ok (cs : list call) : forall w,
  targetsOk w -> targetsOk (calls bd cs w).
Proof.
  destruct Hbd as (Hdial & Hcheck & _). unfold targetsOk.
  induction cs as [| [network addr |] cs IH]; intros w Hw; cbn [calls].
  - exact Hw.
  - apply IH. rewrite Hdial.
    destruct (DialFN_targets d network addr w) as [-> | [Hok ->]];
      [exact Hw | apply targetsOk_add; assumption].
  - apply IH. rewrite Hcheck.
    pose proof (get_from (targets w)) as [Hhead Hrest].
    assert (Hq' : Forall (fun a => okTarget a = true)
                    (resident (get (targets w)).2))
      by (apply (Forall_incl _ _ _ Hrest), Hw).
    destruct (check_targets w) as [-> | [Ht ->]]; [exact Hq' |].
    apply targetsOk_add; [| exact Hq'].
    destruct Hhead as [Hempty | Hin]; [contradiction |].
    rewrite List.Forall_forall in Hw. apply Hw, Hin.
Qed.

(** Calls touch the targets, the log and the requests sent, nothing
    else. *)
Lemma calls_frame (cs : list call) : forall w,
  let w' := calls bd cs w in
  server w' = withTargets (server w) (targets w')
  /\ Addr (server w') = Addr (server w)
  /\ AuthToken (server w') = AuthToken (server w)
  /\ (exists es, logged w' = logged w ++ es)
  /\ (exists rs, sent w' = sent w ++ rs
                 /\ (length rs <= checkCalls cs)%nat).
Proof.
  destruct Hbd as (Hdial & Hcheck & _).
  assert (Hmain : forall w,
    server (calls bd cs w) = withTargets (server w) (targets (calls bd cs w))
    /\ (exists es, logged (calls bd cs w) = logged w ++ es)
    /\ (exists rs, sent (calls bd cs w) = sent w ++ rs
                   /\ (length rs <= checkCalls cs)%nat)).
  { induction cs as [| [network addr |] cs' IH]; intros w;
      cbn [calls checkCalls].
    - split; [unfold targets; now rewrite withTargets_id |].
      split; exists []; rewrite app_nil_r; auto.
    - rewrite Hdial.
      destruct (DialFN_frame d network addr w) as (Hs & [es Hl] & Hsent).
      destruct (IH (DialFN d network addr w).2)
        as (Hs' & [es' Hl'] & [rs (Hr & Hlen)]).
      split; [rewrite Hs', Hs; reflexivity |].
      split; [exists (es ++ es'); rewrite Hl', Hl, app_assoc; reflexivity |].
      exists rs. rewrite Hr, Hsent. auto.
    - rewrite Hcheck.
      destruct (check_frame w) as (Hs & [es Hl] & [rs0 (Hr0 & Hlen0)]).
      destruct (IH (check g url_Parse RoundTrip d deviceID w).2)
        as (Hs' & [es' Hl'] & [rs (Hr & Hlen)]).
      split; [rewrite Hs', Hs; reflexivity |].
      split; [exists (es ++ es'); rewrite Hl', Hl, app_assoc; reflexivity |].
      exists (rs0 ++ rs). rewrite Hr, Hr0, app_assoc.
      split; [reflexivity | rewrite length_app; lia]. }
  intros w w'. subst w'. destruct (Hmain w) as (Hs & Hl & Hr).
  split; [exact Hs |]. rewrite Hs. repeat split; assumption.
Qed.

End Calls.

Section BuiltCalls.

Variable g : Globals.
Variable dialFN : Type.
Variable pluggableTransports : gmap string (dialFactory dialFN).
Variable NewDialer : chained.Config dialFN -> dialer.
Variable url_Parse : string -> option error.
Variable RoundTrip : dialer -> http.Request -> timed (Response + error).
Variable deviceID : string.

Variables (w w0 : world) (bd : balancer.Dialer).
Hypothesis Hbuilt :
  Dialer g dialFN pluggableTransports NewDialer url_Parse RoundTrip
    deviceID w = (inl bd, w0).

(** X7. On a dialer built for a server whose check targets were not
    initialised, or were within capacity 10, no sequence of dial and check
    calls ever makes more than 10 targets resident. *)
Theorem built_dialer_bounded (cs : list call) :
  ch (targets w) = None \/ within 10 (targets w) ->
  (length (resident (targets (calls bd cs w0))) <= 10)%nat.
Proof.
  intros Hw. destruct (Dialer_inl _ _ _ _ _ _ _ _ _ _ Hbuilt)
    as ([d Hbd] & Hs & _ & _).
  apply (within_resident 10).
  apply (calls_within g url_Parse RoundTrip deviceID d bd Hbd).
  unfold targets at 1. rewrite Hs. cbn [withTargets checkTargets].
  unfold initIfNecessary. destruct Hw as [Hnil | Hin].
  - rewrite Hnil. exists []. split; [reflexivity | cbn; lia].
  - pose proof Hin as (l & Hch & _). rewrite Hch.
    destruct (targets w) as [c]. cbn in Hch. subst c. exact Hin.
Qed.

(** X8. On a dialer built for a server whose resident check targets, if
    any, are port-80 addresses outside the internal suffixes, every
    target resident after any sequence of dial and check calls is such an
    address: nothing else ever enters the list. *)
Theorem built_dialer_targets_ok (cs : list call) :
  targetsOk w -> targetsOk (calls bd cs w0).
Proof.
  intros Hw. destruct (Dialer_inl _ _ _ _ _ _ _ _ _ _ Hbuilt)
    as ([d Hbd] & Hs & _ & _).
  apply (calls_keep_targets_ok g url_Parse RoundTrip deviceID d bd Hbd).
  unfold targetsOk, targets in *. rewrite Hs. cbn [withTargets checkTargets].
  unfold initIfNecessary, resident in *.
  destruct (ch (checkTargets (server w))) eqn:Hch;
    [rewrite Hch; exact Hw | constructor].
Qed.

(** X9. Construction and any sequence of dial and check calls on the
    dialer built leave the address, the certificate, the token, the trust
    flag and the transport of the server as they were, only append to the
    log, and hand at most one request per check call to the transport: the
    construction and the dial calls send none. *)
Theorem built_dialer_frame (cs : list call) :
  let w' := calls bd cs w0 in
  Addr (server w') = Addr (server w)
  /\ Cert (server w') = Cert (server w)
  /\ AuthToken (server w') = AuthToken (server w)
  /\ Trusted (server w') = Trusted (server w)
  /\ PluggableTransport (server w') = PluggableTransport (server w)
  /\ PluggableTransportSettings (server w')
     = PluggableTransportSettings (server w)
  /\ (exists es, logged w' = logged w ++ es)
  /\ (exists rs, sent w' = sent w ++ rs /\ (length rs <= checkCalls cs)%nat).
Proof.
  intros w'. subst w'. destruct (Dialer_inl _ _ _ _ _ _ _ _ _ _ Hbuilt)
    as ([d Hbd] & Hs & Hsent & [es0 Hl0]).
  destruct (calls_frame g url_Parse RoundTrip deviceID d bd Hbd cs w0)
    as (Hs' & _ & _ & [es Hl] & Hr).
  rewrite Hs', Hs, <- Hsent. cbn [withTargets Addr Cert AuthToken Trusted
    PluggableTransport PluggableTransportSettings].
  repeat split; try assumption.
  exists (es0 ++ es). rewrite Hl, Hl0, app_assoc. reflexivity.
Qed.

End BuiltCalls.

(** ** More on [check] *)

Lemma okTarget_not_empty (addr : string) : okTarget addr = true -> addr <> "".
Proof. intros Hok ->. vm_compute in Hok. discriminate. Qed.

Section CheckMore.

Variable g : Globals.
Variable url_Parse : string -> option error.
Variable RoundTrip : dialer -> http.Request -> timed (Response + error).
Variable dial : dialer.
Variable deviceID : string.

(** X10. With clean targets, a run of [check] that can build its request
    probes the oldest resident target, at http://t/index.html and without
    X-Lantern-Ping; the synthetic URL, with X-Lantern-Ping: small, is used
    when, and only when, no target is resident. *)
Theorem check_probes_oldest_target (w : world) :
  targetsOk w ->
  url_Parse (probeURL (get (targets w)).1) = None ->
  exists req,
    sent (check g url_Parse RoundTrip dial deviceID w).2 = sent w ++ [req]
    /\ http.Method req = "HEAD"
    /\ ((resident (targets w) = []
         /\ http.URL req = "http://ping-chained-server"
         /\ http.Header_Values (http.Hdr req) "X-Lantern-Ping" = ["small"])
        \/ (exists t rest,
              resident (targets w) = t :: rest
              /\ okTarget t = true
              /\ http.URL req = "http://" +:+ t +:+ "/index.html"
              /\ http.Header_Values (http.Hdr req) "X-Lantern-Ping" = [])).
Proof.
  intros Hok Hurl. rewrite check_world. cbn zeta. rewrite Hurl. cbn [snd sent].
  eexists. split; [reflexivity |]. split; [reflexivity |].
  unfold targetsOk, resident, targets, get in *.
  unfold checkRequest, probeURL, http.Header_Values. rewrite canonical_ping.
  cbn [http.URL http.Hdr].
  destruct (ch (checkTargets (server w))) as [[n [| t rest]] |]; cbn [fst buf].
  - left. split; [reflexivity |]. split; [reflexivity |].
    cbn [String.eqb]. rewrite attached_other by apply pingKey_fresh.
    reflexivity.
  - right. exists t, rest. cbn [buf] in Hok. inversion Hok as [| ? ? Ht _].
    pose proof (okTarget_not_empty t Ht) as Hne.
    apply String.eqb_neq in Hne. rewrite Hne.
    split; [reflexivity |]. split; [exact Ht |]. split; [reflexivity |].
    rewrite attached_other by apply pingKey_fresh. reflexivity.
  - left. split; [reflexivity |]. split; [reflexivity |].
    cbn [String.eqb]. rewrite attached_other by apply pingKey_fresh.
    reflexivity.
Qed.

(** X11. The request a run of [check] hands to the transport carries the
    device identifier once, the token in force once when there is one and
    no X-LANTERN-AUTH-TOKEN at all when there is none, and no header other
    than these two and X-Lantern-Ping. *)
Theorem check_probe_headers (w : world) (req : http.Request) :
  sent (check g url_Parse RoundTrip dial deviceID w).2 = sent w ++ [req] ->
  let tok := effectiveToken g (server w) in
  http.Header_Values (http.Hdr req) "X-LANTERN-DEVICE-ID" = [deviceID]
  /\ (tok <> "" ->
      http.Header_Values (http.Hdr req) "X-LANTERN-AUTH-TOKEN" = [tok])
  /\ (tok = "" -> http.Hdr req !! authKey = None)
  /\ (forall key,
        key <> deviceKey -> key <> authKey -> key <> pingKey ->
        http.Hdr req !! key = None).
Proof.
  intros Hsent tok.
  destruct (check_sent g url_Parse RoundTrip dial deviceID w req Hsent)
    as [-> _].
  unfold checkRequest. cbn [http.Hdr]. fold tok.
  rewrite Values_device, Values_auth, attached_device, !attached_auth.
  assert (Hfresh : forall h : http.Header,
            h = <[pingKey := ["small"]]> ∅ \/ h = ∅ -> h !! authKey = None).
  { intros h [-> | ->]; [| apply lookup_empty].
    rewrite lookup_insert_ne by (vm_compute; discriminate).
    apply lookup_empty. }
  set (h := if String.eqb (get (targets w)).1 "" then _ else _).
  assert (Hh : h = <[pingKey := ["small"]]> ∅ \/ h = ∅)
    by (subst h; destruct (String.eqb _ ""); auto).
  split; [reflexivity |]. split; [| split].
  - intros Htok. apply String.eqb_neq in Htok.
    rewrite Htok, (Hfresh h Hh). reflexivity.
  - intros Htok. rewrite Htok. apply Hfresh, Hh.
  - intros key Hd Ha Hp. rewrite attached_other by assumption.
    destruct Hh as [-> | ->]; [| apply lookup_empty].
    rewrite lookup_insert_ne by congruence. apply lookup_empty.
Qed.

(** X12. When the request of a run of [check] cannot be built, the run
    returns false, writes one error to the log and sends nothing; the
    target it popped is not put back. *)
Theorem check_bad_url (w : world) (err : error) :
  url_Parse (probeURL (get (targets w)).1) = Some err ->
  let r := check g url_Parse RoundTrip dial deviceID w in
  r.1 = false
  /\ sent r.2 = sent w
  /\ logged r.2
     = logged w ++ [mkEntry Error "Could not create HTTP request: %v" [VStr err]]
  /\ targets r.2 = (get (targets w)).2.
Proof.
  intros Hurl. cbn zeta. rewrite check_world. cbn zeta. rewrite Hurl.
  repeat split.
Qed.

(** X13. A run of [check] that sent its probe only appends to the log;
    the time-out error is among the entries appended when the answer took
    more than 60 seconds or never came, and is not among them when the
    answer came in less than 60 seconds. *)
Theorem check_logs_time_out (w : world) (req : http.Request) :
  sent (check g url_Parse RoundTrip dial deviceID w).2 = sent w ++ [req] ->
  exists es,
    logged (check g url_Parse RoundTrip dial deviceID w).2 = logged w ++ es
    /\ (RoundTrip dial req = Hangs -> In (timedOutEntry (server w)) es)
    /\ (forall after r,
          RoundTrip dial req = Returns after r ->
          60 * time.Second < after -> In (timedOutEntry (server w)) es)
    /\ (forall after r,
          RoundTrip dial req = Returns after r ->
          after < 60 * time.Second -> ~ In (timedOutEntry (server w)) es).
Proof.
  intros Hsent.
  destruct (check_sent g url_Parse RoundTrip dial deviceID w req Hsent)
    as [Hreq _].
  revert Hsent. rewrite check_world. cbn zeta.
  destruct (url_Parse _) as [err |]; cbn [snd sent logged]; intros Hsent.
  { exfalso. exact (sent_not_more _ _ Hsent). }
  rewrite <- Hreq. eexists. split; [reflexivity |].
  unfold probeLog, timedOutEntry.
  destruct (RoundTrip dial req) as [after [resp | e] |].
  - split; [discriminate |]. split.
    + intros a r Hr Ha. injection Hr as <- _.
      apply in_or_app. right.
      destruct (Z.ltb_spec after (60 * time.Second)); [lia | left; reflexivity].
    + intros a r Hr Ha. injection Hr as <- _.
      apply Z.ltb_lt in Ha. rewrite Ha, app_nil_r.
      intros Hin. apply in_app_or in Hin. destruct Hin as [Hin | Hin].
      * destruct (BodyCloseErr resp); [| destruct Hin].
        destruct Hin as [Hin | []]. discriminate.
      * destruct Hin as [Hin | []].
        destruct (StatusCode resp <? 500); discriminate.
  - split; [discriminate |]. split.
    + intros a r Hr Ha. injection Hr as <- _.
      apply in_or_app. right.
      destruct (Z.ltb_spec after (60 * time.Second)); [lia | left; reflexivity].
    + intros a r Hr Ha. injection Hr as <- _.
      apply Z.ltb_lt in Ha. rewrite Ha, app_nil_r.
      intros [Hin | []]. discriminate.
  - split; [intros _; left; reflexivity |].
    split; intros a r Hr; discriminate.
Qed.

End CheckMore.

Section Rotation.

Variable g : Globals.
Variable url_Parse : string -> option error.
Variable RoundTrip : dialer -> http.Request -> timed (Response + error).
Variable dial : dialer.
Variable deviceID : string.

(** X14. A single good target serves for ever: with one resident target
    whose probe is answered in time with a status below 500, any number
    of checks in a row all return true, all send that same probe, and
    leave the target list exactly as it was. *)
Theorem sole_target_serves (n size : nat) (t : string) (after : time.Duration)
        (resp : Response) : forall w : world,
  targets w = mkSiteList (Some (mkChan size [t])) ->
  (0 < size)%nat -> t <> "" ->
  url_Parse (probeURL t) = None ->
  RoundTrip dial (checkRequest g (server w) deviceID t)
  = Returns after (inl resp) ->
  after < 60 * time.Second -> StatusCode resp < 500 ->
  let r := checks g url_Parse RoundTrip dial deviceID n w in
  r.1 = repeat true n
  /\ targets r.2 = targets w
  /\ sent r.2 = sent w ++ repeat (checkRequest g (server w) deviceID t) n.
Proof.
  intros w Hq Hcap Ht Hurl Hrt Hafter Hcode. cbn zeta.
  apply Z.ltb_lt in Hafter, Hcode. pose proof Ht as Hne.
  apply String.eqb_neq in Hne. apply Nat.ltb_lt in Hcap.
  revert w Hq Hrt. induction n as [| m IH]; intros w Hq Hrt; cbn [checks repeat].
  - rewrite app_nil_r. auto.
  - rewrite check_world. cbn zeta. rewrite Hq. cbn [get ch fst snd].
    rewrite Hurl, Hrt, Hafter, Hcode, Hne. cbn [andb negb].
    unfold add. cbn [ch buf cap length app]. rewrite Hcap.
    match goal with
    | |- context [checks _ _ _ _ _ m ?w1] =>
        destruct (IH w1) as (Hb & Hq1 & Hs); [reflexivity | exact Hrt |];
        destruct (checks g url_Parse RoundTrip dial deviceID m w1)
          as [bs w2]
    end.
    cbn [fst snd] in *. rewrite Hb, Hq1, Hs. cbn [sent].
    rewrite <- app_assoc. repeat split.
Qed.

(** X15. A successful dial feeds the next check: on a server whose target
    list is initialised, with room, and empty, after a dial that succeeds
    to a port-80 address outside the internal suffixes that address is
    the one resident target.  The next check then probes it, with a HEAD
    to http://addr/index.html, when the request for that URL can be
    built; when it cannot, the check returns false, sends nothing and the
    address is gone from the list. *)
Theorem dial_then_check (d : dialer) (network addr : string) (conn : Conn)
        (n : nat) (w : world) :
  targets w = mkSiteList (Some (mkChan n [])) -> (0 < n)%nat ->
  okTarget addr = true ->
  d network addr = inl conn ->
  let w1 := (DialFN d network addr w).2 in
  let r := check g url_Parse RoundTrip dial deviceID w1 in
  resident (targets w1) = [addr]
  /\ sent w1 = sent w
  /\ (url_Parse ("http://" +:+ addr +:+ "/index.html") = None ->
      exists req,
        sent r.2 = sent w ++ [req]
        /\ http.Method req = "HEAD"
        /\ http.URL req = "http://" +:+ addr +:+ "/index.html")
  /\ (forall err,
        url_Parse ("http://" +:+ addr +:+ "/index.html") = Some err ->
        r.1 = false /\ sent r.2 = sent w /\ resident (targets r.2) = []).
Proof.
  intros Hq Hn Hok Hd. cbn zeta.
  rewrite DialFN_world, Hd, addCheckTarget_world, Hok, Hq.
  apply Nat.ltb_lt in Hn. unfold add. cbn [ch buf cap length app].
  rewrite Hn. split; [reflexivity |]. split; [reflexivity |].
  rewrite check_world. cbn zeta. unfold targets.
  cbn [server withTargets checkTargets get ch fst snd].
  pose proof (okTarget_not_empty addr Hok) as Hne.
  apply String.eqb_neq in Hne. unfold probeURL. rewrite Hne. split.
  - intros Hurl. rewrite Hurl. cbn [snd sent]. eexists.
    split; [reflexivity |].
    unfold checkRequest, probeURL. rewrite Hne. split; reflexivity.
  - intros err Hurl. rewrite Hurl. repeat split.
Qed.

(** X18. With no target resident, every check of a row of checks probes
    the synthetic URL and the list stays as it is, initialised or not,
    whatever the transport answers. *)
Theorem no_target_checks (n : nat) : forall w : world,
  resident (targets w) = [] ->
  url_Parse "http://ping-chained-server" = None ->
  let r := checks g url_Parse RoundTrip dial deviceID n w in
  targets r.2 = targets w
  /\ sent r.2 = sent w ++ repeat (checkRequest g (server w) deviceID "") n.
Proof.
  intros w Hempty Hurl. cbn zeta. revert w Hempty.
  induction n as [| m IH]; intros w Hempty; cbn [checks repeat].
  - rewrite app_nil_r. auto.
  - rewrite check_world. cbn zeta. rewrite (get_empty _ Hempty).
    cbn [fst snd]. change (probeURL "") with "http://ping-chained-server".
    rewrite Hurl. cbn [String.eqb negb]. rewrite andb_false_r.
    unfold targets at 1. rewrite withTargets_id.
    match goal with
    | |- context [checks _ _ _ _ _ m ?w1] =>
        destruct (IH w1) as (Hq1 & Hs); [exact Hempty |];
        destruct (checks g url_Parse RoundTrip dial deviceID m w1)
          as [bs w2]
    end.
    cbn [fst snd] in *. fold (targets w2). rewrite Hq1, Hs.
    cbn [sent server]. rewrite <- app_assoc. split; reflexivity.
Qed.

End Rotation.

(** ** More on [attachHeaders] *)

(** X16. [attachHeaders] touches two headers and nothing else: the values
    of every other header of the request, under whatever spelling of its
    name, are the same afterwards. *)
Theorem attachHeaders_keeps_other_headers (g : Globals) (req : http.Request)
        (deviceID key : string) (w : world) :
  textproto.CanonicalMIMEHeaderKey key <> authKey ->
  textproto.CanonicalMIMEHeaderKey key <> deviceKey ->
  http.Header_Values (http.Hdr (attachHeaders g req deviceID w).1) key
  = http.Header_Values (http.Hdr req) key.
Proof.
  intros Ha Hd. rewrite attachHeaders_eq. cbn [fst http.Hdr].
  unfold http.Header_Values. rewrite attached_other by assumption.
  reflexivity.
Qed.

(** X17. With no token in force nothing accumulates: attaching the headers
    a second time, with the same device identifier or another, gives the
    request a single attachment with the later identifier gives. *)
Theorem attachHeaders_again_without_token (g : Globals) (req : http.Request)
        (deviceID deviceID' : string) (w : world) :
  effectiveToken g (server w) = "" ->
  attachHeaders g (attachHeaders g req deviceID w).1 deviceID' w
  = attachHeaders g req deviceID' w.
Proof.
  intros Htok. rewrite !attachHeaders_eq. cbn [fst http.Method http.URL http.Hdr].
  rewrite Htok. unfold attached. cbn [String.eqb].
  rewrite insert_insert_eq. reflexivity.
Qed.

(** ** Further runs on concrete inputs *)

Example queue_round_trip :
  run (map Add ["a"; "b"; "c"] ++ repeat Get 4) freshList
  = (["a"; "b"; "c"; ""], freshList).
Proof. reflexivity. Qed.

Lemma Dialer_keeps_targets_witness :
  targets (Dialer noGlobals Fixture.rawDial Fixture.pluggableTransports
             Fixture.NewDialer parse_all (answers (status 200)) "device"
             oneTarget).2
  = add "example.com:80" freshList.
Proof.
  apply (Dialer_keeps_targets noGlobals Fixture.rawDial
           Fixture.pluggableTransports Fixture.NewDialer parse_all
           (answers (status 200)) "device" oneTarget).
  vm_compute. discriminate.
Defined.

Lemma Dialer_factory_fails_witness :
  let registry : gmap string (dialFactory Fixture.rawDial) :=
    {[ "" := fun _ _ _ => inr "bad certificate" ]} in
  (Dialer noGlobals Fixture.rawDial registry Fixture.NewDialer parse_all
     (answers (status 200)) "device" noTarget).1
  = inr "Unable to construct dialFN: bad certificate".
Proof.
  intros registry.
  apply (Dialer_factory_fails noGlobals Fixture.rawDial registry
           Fixture.NewDialer parse_all (answers (status 200)) "device"
           noTarget (fun _ _ _ => inr "bad certificate") "bad certificate");
    vm_compute; reflexivity.
Defined.

(** The dialer of a server that was never built, and calls on it. *)
Lemma fixture_built :
  exists bd,
    Dialer noGlobals Fixture.rawDial Fixture.pluggableTransports
      Fixture.NewDialer parse_all (answers (status 200)) "device"
      (mkWorld (serverWithToken "T") [] [])
    = (inl bd,
       (Dialer noGlobals Fixture.rawDial Fixture.pluggableTransports
          Fixture.NewDialer parse_all (answers (status 200)) "device"
          (mkWorld (serverWithToken "T") [] [])).2).
Proof.
  destruct (Dialer_built noGlobals Fixture.rawDial
              Fixture.pluggableTransports Fixture.NewDialer parse_all
              (answers (status 200)) "device"
              (mkWorld (serverWithToken "T") [] [])
              Fixture.defaultDialFactory
              (fun network _ => inl (TCP "10.0.0.1:443")))
    as (bd & Heq & _); [vm_compute; reflexivity | reflexivity |].
  exists bd. exact Heq.
Qed.

Lemma built_dialer_bounded_witness :
  match Dialer noGlobals Fixture.rawDial Fixture.pluggableTransports
          Fixture.NewDialer parse_all (answers (status 200)) "device"
          (mkWorld (serverWithToken "T") [] []) with
  | (inl bd, w0) =>
      (length (resident (targets
         (calls bd [Dial "tcp" "a.com:80"; CheckCall; Dial "tcp" "b.com:80"]
            w0))) <= 10)%nat
  | (inr _, _) => False
  end.
Proof.
  destruct fixture_built as [bd Hbuilt]. rewrite Hbuilt.
  apply (built_dialer_bounded _ _ _ _ _ _ _ _ _ _ Hbuilt).
  left. reflexivity.
Defined.

Lemma built_dialer_targets_ok_witness :
  match Dialer noGlobals Fixture.rawDial Fixture.pluggableTransports
          Fixture.NewDialer parse_all (answers (status 200)) "device"
          (mkWorld (serverWithToken "T") [] []) with
  | (inl bd, w0) =>
      targetsOk
        (calls bd [Dial "tcp" "a.com:80"; Dial "tcp" "a.com:443"; CheckCall]
           w0)
  | (inr _, _) => False
  end.
Proof.
  destruct fixture_built as [bd Hbuilt]. rewrite Hbuilt.
  apply (built_dialer_targets_ok _ _ _ _ _ _ _ _ _ _ Hbuilt).
  constructor.
Defined.

Lemma built_dialer_frame_witness :
  match Dialer noGlobals Fixture.rawDial Fixture.pluggableTransports
          Fixture.NewDialer parse_all (answers (status 200)) "device"
          (mkWorld (serverWithToken "T") [] []) with
  | (inl bd, w0) =>
      AuthToken (server (calls bd [Dial "tcp" "a.com:80"; CheckCall] w0)) = "T"
  | (inr _, _) => False
  end.
Proof.
  destruct fixture_built as [bd Hbuilt]. rewrite Hbuilt.
  destruct (built_dialer_frame _ _ _ _ _ _ _ _ _ _ Hbuilt
              [Dial "tcp" "a.com:80"; CheckCall]) as (_ & _ & Htok & _).
  exact Htok.
Defined.

Lemma oneTarget_ok : targetsOk oneTarget.
Proof. constructor; [vm_compute; reflexivity | constructor]. Qed.

Lemma check_probes_oldest_target_witness :
  exists req,
    sent (run_check (status 200) oneTarget).2 = [req]
    /\ http.Method req = "HEAD".
Proof.
  destruct (check_probes_oldest_target noGlobals parse_all
              (answers (status 200)) someDial "device" oneTarget
              oneTarget_ok eq_refl) as (req & Hs & Hm & _).
  exists req. split; [exact Hs | exact Hm].
Defined.

Lemma check_probe_headers_witness :
  let req := checkRequest noGlobals (server oneTarget) "device"
               "example.com:80" in
  http.Header_Values (http.Hdr req) "X-LANTERN-AUTH-TOKEN" = ["T"].
Proof.
  intros req.
  assert (Hsent : sent (run_check (status 200) oneTarget).2
                  = sent oneTarget ++ [req]) by (vm_compute; reflexivity).
  destruct (check_probe_headers noGlobals parse_all (answers (status 200))
              someDial "device" oneTarget req Hsent) as (_ & Htok & _).
  apply Htok. vm_compute. discriminate.
Defined.

Lemma check_bad_url_witness :
  let r := check noGlobals (fun _ => Some "invalid URL escape")
             (answers (status 200)) someDial "device" oneTarget in
  r.1 = false /\ resident (targets r.2) = [].
Proof.
  intros r.
  destruct (check_bad_url noGlobals (fun _ => Some "invalid URL escape")
              (answers (status 200)) someDial "device" oneTarget
              "invalid URL escape" eq_refl) as (Hb & _ & _ & Ht).
  split; [exact Hb |]. subst r. rewrite Ht. reflexivity.
Defined.

Lemma check_logs_time_out_witness :
  exists es,
    logged (run_check Hangs oneTarget).2 = logged oneTarget ++ es
    /\ In (timedOutEntry (server oneTarget)) es.
Proof.
  pose (req := checkRequest noGlobals (server oneTarget) "device"
                 "example.com:80").
  assert (Hsent : sent (run_check Hangs oneTarget).2
                  = sent oneTarget ++ [req]) by (vm_compute; reflexivity).
  destruct (check_logs_time_out noGlobals parse_all (answers Hangs)
              someDial "device" oneTarget req Hsent) as (es & Hl & Hin).
  exists es. split; [exact Hl |]. apply Hin. reflexivity.
Defined.

Lemma sole_target_serves_witness :
  (checks noGlobals parse_all (answers (status 200)) someDial "device" 3
     oneTarget).1 = [true; true; true]
  /\ targets (checks noGlobals parse_all (answers (status 200)) someDial
                "device" 3 oneTarget).2 = targets oneTarget.
Proof.
  destruct (sole_target_serves noGlobals parse_all (answers (status 200))
              someDial "device" 3 10 "example.com:80" time.Second
              (mkResponse 200 None) oneTarget)
    as (Hb & Ht & _);
    [reflexivity | lia | discriminate | reflexivity | reflexivity
    | reflexivity | reflexivity |].
  split; [exact Hb | exact Ht].
Defined.

Lemma dial_then_check_witness :
  (exists req,
     sent (check noGlobals parse_all (answers (status 200)) someDial "device"
             (DialFN openNet "tcp" "example.com:80" noTarget).2).2
     = [req]
     /\ http.URL req = "http://example.com:80/index.html")
  /\ sent (check noGlobals (fun _ => Some "invalid URL escape")
             (answers (status 200)) someDial "device"
             (DialFN openNet "tcp" "[fe80::1%eth0]:80" noTarget).2).2
     = [].
Proof.
  split.
  - destruct (dial_then_check noGlobals parse_all (answers (status 200))
                someDial "device" openNet "tcp" "example.com:80"
                (TCP "example.com:80") 10 noTarget)
      as (_ & _ & Hgood & _);
      [reflexivity | lia | vm_compute; reflexivity | reflexivity |].
    destruct (Hgood eq_refl) as (req & Hs & _ & Hu).
    exists req. split; [exact Hs | exact Hu].
  - destruct (dial_then_check noGlobals (fun _ => Some "invalid URL escape")
                (answers (status 200)) someDial "device" openNet "tcp"
                "[fe80::1%eth0]:80" (TCP "[fe80::1%eth0]:80") 10 noTarget)
      as (_ & _ & _ & Hbad);
      [reflexivity | lia | vm_compute; reflexivity | reflexivity |].
    destruct (Hbad "invalid URL escape" eq_refl) as (_ & Hs & _).
    exact Hs.
Defined.

Lemma attachHeaders_keeps_other_headers_witness :
  let req := http.mkRequest "GET" "http://example.com/"
               {[ "User-Agent" := ["curl"] ]} in
  http.Header_Values
    (http.Hdr (attachHeaders noGlobals req "device" oneTarget).1) "user-agent"
  = ["curl"].
Proof.
  intros req.
  rewrite (attachHeaders_keeps_other_headers noGlobals req "device"
             "user-agent" oneTarget);
    [vm_compute; reflexivity | vm_compute; discriminate
    | vm_compute; discriminate].
Defined.

Lemma attachHeaders_again_without_token_witness :
  let w := mkWorld (serverWithToken "") [] [] in
  attachHeaders noGlobals (attachHeaders noGlobals staleRequest "old" w).1
    "new" w
  = attachHeaders noGlobals staleRequest "new" w.
Proof.
  intros w.
  apply (attachHeaders_again_without_token noGlobals staleRequest "old"
           "new" w).
  reflexivity.
Defined.

Lemma no_target_checks_witness :
  let r := checks noGlobals parse_all (answers (status 503)) someDial
             "device" 2 noTarget in
  resident (targets r.2) = []
  /\ map http.URL (sent r.2)
     = ["http://ping-chained-server"; "http://ping-chained-server"].
Proof.
  intros r.
  destruct (no_target_checks noGlobals parse_all (answers (status 503))
              someDial "device" 2 noTarget eq_refl eq_refl) as (Ht & Hs).
  fold r in Ht, Hs. rewrite Ht, Hs. split; reflexivity.
Defined.
